(** * generate_icon.py: the app-icon renderer, embedded and verified

    The script draws a magnifying glass over a vertical gradient with PIL and
    returns the composited RGBA image.  This file embeds [create_app_icon]
    as a program over a heap of PIL images and proves the properties the
    specification states about it.

    - Python [float] is IEEE-754 binary64: Rocq's primitive [float].
    - Python [int] is [Z].
    - PIL images are mutable objects: they live in a [heap]; [Image.new]
      allocates, an [ImageDraw] handle aliases its image, the drawing calls
      update the image in place, [Image.alpha_composite] allocates the result.
    - What PIL's rasterizer and the C library's [cos]/[sin] compute is not part
      of the repository: the program is parameterised by a [Backend]. *)

From Stdlib Require Import ZArith List Lia Bool.
From Stdlib Require Import Floats.
From stdpp Require Import base tactics option list strings.

Set Warnings "-inexact-float".
#[local] Open Scope Z_scope.

(** ** Python numbers *)

(** [float(z)] for an [int]: the nearest binary64, ties to even.  (Python
    raises OverflowError from 2^1024 on, where this gives infinity; no image
    has such a side.) *)
Definition float_of_int (z : Z) : float :=
  SF2Prim (binary_normalize prec emax z 0 false).

(** [int(f)] for a [float], and the C cast [(int)f] of PIL: truncation
    toward zero.  Not a number and the infinities, on which Python raises,
    are sent to 0; the script never produces them at the sizes of an image. *)
Definition int_of_float (f : float) : Z :=
  match Prim2SF f with
  | S754_finite s m e =>
      let a := match e with
               | Zneg p => Z.shiftr (Zpos m) (Zpos p)
               | _ => Z.shiftl (Zpos m) e
               end in
      if s then - a else a
  | _ => 0
  end.

(** [a / b] on two [int]s (true division): zero when [a] is zero, else the
    quotient of the two conversions, which is the correctly rounded quotient
    for operands below 2^53.  The script only divides by [size] inside
    [range(size)], so the divisor is never zero. *)
Definition int_truediv (a b : Z) : float :=
  if a =? 0 then (if b <? 0 then neg_zero else zero)
  else (float_of_int a / float_of_int b)%float.

(** [range(n)] *)
Definition range (n : Z) : list Z := map Z.of_nat (seq 0 (Z.to_nat n)).

(** A coordinate handed to a PIL drawing call is an [int] or a [float]; the
    C layer casts it to a C [int], truncating. *)
Inductive coord : Type :=
  | PyInt (z : Z)
  | PyFloat (f : float).

Definition c_int (c : coord) : Z :=
  match c with
  | PyInt z => z
  | PyFloat f => int_of_float f
  end.

(** ** Colours and images

    A colour is the tuple the script passes as [fill]; every channel the
    script passes is a byte (see [gradient_bytes_checked] for the computed
    ones), so PIL stores it as it is. *)

Definition rgba : Type := Z * Z * Z * Z.

Definition alpha (c : rgba) : Z := let '(_, _, _, a) := c in a.

Record Image : Type := mkImage {
  width : Z;
  height : Z;
  pixels : Z -> Z -> rgba
}.

Definition in_bounds (im : Image) (x y : Z) : bool :=
  (0 <=? x) && (x <? width im) && (0 <=? y) && (y <? height im).

(** [im.getpixel((x, y))]: an IndexError outside the image. *)
Definition getpixel (im : Image) (x y : Z) : option rgba :=
  if in_bounds im x y then Some (pixels im x y) else None.

(** [im.tobytes()]: rows top to bottom, four bytes per pixel. *)
Definition tobytes (im : Image) : list Z :=
  flat_map (fun y =>
    flat_map (fun x => let '(r, g, b, a) := pixels im x y in [r; g; b; a])
             (range (width im)))
    (range (height im)).

(** A drawing primitive writes [fill] into every pixel of its coverage that
    lies on the canvas, and touches nothing else. *)
Definition paint (mask : Z -> Z -> bool) (fill : rgba) (im : Image) : Image :=
  {| width := width im;
     height := height im;
     pixels := fun x y =>
       if in_bounds im x y && mask x y then fill else pixels im x y |}.

(** ** What the script imports

    [line_mask x0 y0 x1 y1 w x y]: does [ImageDraw.line] from [(x0,y0)] to
    [(x1,y1)] with width [w] cover pixel [(x,y)]?
    [ellipse_mask x0 y0 x1 y1 x y]: does a filled [ImageDraw.ellipse] with
    bounding box [(x0,y0,x1,y1)] cover pixel [(x,y)]?
    [math_cos], [math_sin]: the C library's functions. *)
Class Backend : Type := {
  line_mask : Z -> Z -> Z -> Z -> Z -> Z -> Z -> bool;
  ellipse_mask : Z -> Z -> Z -> Z -> Z -> Z -> bool;
  math_cos : float -> float;
  math_sin : float -> float
}.

(** [math.radians(x)] is [x * (pi / 180)]. *)
Definition math_radians (x : float) : float :=
  (x * (3.141592653589793 / 180))%float.

(** binary64 values of cos and sin at [math.radians(45)], correctly rounded. *)
Definition cos45 : float := 0.7071067811865476%float.
Definition sin45 : float := 0.7071067811865475%float.

(** What the proofs below rely on, at most, about the imported functions. *)
Class BackendLaws (B : Backend) : Prop := {
  (** a thin horizontal line covers exactly its row segment, ends included *)
  hline_exact : forall x0 x1 y w x y',
    x0 <= x1 -> w <= 1 ->
    line_mask x0 y x1 y w x y' = (y' =? y) && (x0 <=? x) && (x <=? x1);
  (** a thin line always draws its last point *)
  line_endpoint : forall x0 y0 x1 y1 w,
    w <= 1 -> line_mask x0 y0 x1 y1 w x1 y1 = true;
  (** a line of width [w] stays within [w] pixels of its end points' box *)
  line_bbox : forall x0 y0 x1 y1 w x y,
    line_mask x0 y0 x1 y1 w x y = true ->
    Z.min x0 x1 - Z.max w 0 <= x <= Z.max x0 x1 + Z.max w 0 /\
    Z.min y0 y1 - Z.max w 0 <= y <= Z.max y0 y1 + Z.max w 0;
  (** a filled ellipse stays inside its bounding box *)
  ellipse_bbox : forall x0 y0 x1 y1 x y,
    ellipse_mask x0 y0 x1 y1 x y = true ->
    x0 <= x <= x1 /\ y0 <= y <= y1;
  (** and covers every pixel at least two pixels inside the inscribed
      ellipse (coordinates doubled to stay in integers) *)
  ellipse_interior : forall x0 y0 x1 y1 x y,
    x0 <= x <= x1 -> y0 <= y <= y1 ->
    (Z.abs (2 * x - x0 - x1) + 4) ^ 2 * (y1 - y0) ^ 2 +
    (Z.abs (2 * y - y0 - y1) + 4) ^ 2 * (x1 - x0) ^ 2
      <= (x1 - x0) ^ 2 * (y1 - y0) ^ 2 ->
    ellipse_mask x0 y0 x1 y1 x y = true;
  cos_45 : math_cos (math_radians 45) = cos45;
  sin_45 : math_sin (math_radians 45) = sin45
}.

(** ** The heap of PIL objects and the monad of the script *)

Abbreviation ref := nat.
Abbreviation heap := (list Image).

(** A computation reads and updates the heap, or raises ([None]). *)
Definition M (A : Type) : Type := heap -> option (A * heap).

#[export] Instance M_ret : MRet M := fun A a h => Some (a, h).
#[export] Instance M_bind : MBind M := fun A B f m h =>
  match m h with
  | Some (a, h') => f a h'
  | None => None
  end.

Definition alloc (im : Image) : M ref :=
  fun h => Some (length h, h ++ [im]).

Definition update (r : ref) (f : Image -> Image) : M unit :=
  fun h =>
    match h !! r with
    | Some im => Some (tt, <[r := f im]> h)
    | None => None
    end.

(** [for y in ys: body(y)] *)
Fixpoint for_each (ys : list Z) (body : Z -> M unit) : M unit :=
  match ys with
  | [] => mret tt
  | y :: ys' => body y ;; for_each ys' body
  end.

(** ** The PIL calls the script makes *)

(** [Image.new('RGBA', (w, h), color)]: a ValueError on a negative side.
    Memory is taken to suffice, as the specification does. *)
Definition Image_new (w h : Z) (color : rgba) : M ref :=
  if (w <? 0) || (h <? 0) then fun _ => None
  else alloc {| width := w; height := h; pixels := fun _ _ => color |}.

(** [ImageDraw.Draw(img)]: a handle on [img] itself, no copy. *)
Definition ImageDraw_Draw (img : ref) : M ref := mret img.

Section Drawing.
Context {B : Backend}.

(** [draw.line([p0, p1], fill=fill, width=w)] *)
Definition draw_line (draw : ref) (p0 p1 : coord * coord) (fill : rgba)
    (w : Z) : M unit :=
  update draw
    (paint (line_mask (c_int (fst p0)) (c_int (snd p0))
                      (c_int (fst p1)) (c_int (snd p1)) w) fill).

(** [draw.ellipse([x0, y0, x1, y1], fill=fill)] *)
Definition draw_ellipse (draw : ref) (x0 y0 x1 y1 : float) (fill : rgba)
    : M unit :=
  update draw
    (paint (ellipse_mask (int_of_float x0) (int_of_float y0)
                         (int_of_float x1) (int_of_float y1)) fill).
End Drawing.

(** PIL's division by 255 with shifts, and the blend of one pixel of
    [Image.alpha_composite]: [src] over [dst], in integers, seven extra bits
    of precision, rounded. *)
Definition shift_for_div255 (a : Z) : Z :=
  Z.shiftr (Z.shiftr a 8 + a) 8.

Definition composite_channel (coef1 coef2 s d : Z) : Z :=
  Z.shiftr (shift_for_div255 (s * coef1 + d * coef2 + Z.shiftl 128 7)) 7.

Definition composite_pixel (dst src : rgba) : rgba :=
  let '(dr, dg, db, da) := dst in
  let '(sr, sg, sb, sa) := src in
  if sa =? 0 then dst
  else
    let blend := da * (255 - sa) in
    let outa255 := sa * 255 + blend in
    let coef1 := sa * 255 * 255 * Z.shiftl 1 7 / outa255 in
    let coef2 := 255 * Z.shiftl 1 7 - coef1 in
    (composite_channel coef1 coef2 sr dr,
     composite_channel coef1 coef2 sg dg,
     composite_channel coef1 coef2 sb db,
     shift_for_div255 (outa255 + 128)).

Definition composite (im1 im2 : Image) : Image :=
  {| width := width im1;
     height := height im1;
     pixels := fun x y => composite_pixel (pixels im1 x y) (pixels im2 x y) |}.

(** [Image.alpha_composite(im1, im2)]: a new image, [im2] over [im1]; a
    ValueError when the sizes differ. *)
Definition Image_alpha_composite (im1 im2 : ref) : M ref :=
  fun h =>
    match h !! im1, h !! im2 with
    | Some a, Some b =>
        if (width a =? width b) && (height a =? height b)
        then alloc (composite a b) h
        else None
    | _, _ => None
    end.

(** ** generate_icon.py *)

Definition color_top : Z * Z * Z := (217, 119, 87).
Definition color_bottom : Z * Z * Z := (196, 88, 54).

Definition white : rgba := (255, 255, 255, 255).
Definition shine_color : rgba := (255, 255, 255, 60).

(** One channel of a gradient row: [int(top + (bottom - top) * ratio)]. *)
Definition gradient_channel (top bottom : Z) (ratio : float) : Z :=
  int_of_float (float_of_int top + float_of_int (bottom - top) * ratio)%float.

Definition gradient_color (size y : Z) : rgba :=
  let ratio := int_truediv y size in
  let '(rt, gt, bt) := color_top in
  let '(rb, gb, bb) := color_bottom in
  let r := gradient_channel rt rb ratio in
  let g := gradient_channel gt gb ratio in
  let b := gradient_channel bt bb ratio in
  (r, g, b, 255).

(** Magnifying glass parameters *)
Definition center_x (size : Z) : float := (float_of_int size * 0.42)%float.
Definition center_y (size : Z) : float := (float_of_int size * 0.42)%float.
Definition glass_radius (size : Z) : float := (float_of_int size * 0.24)%float.
Definition ring_width (size : Z) : float := (float_of_int size * 0.055)%float.
Definition handle_width (size : Z) : float := (float_of_int size * 0.07)%float.
Definition handle_length (size : Z) : float := (float_of_int size * 0.28)%float.

Definition mix_channel (top bottom : Z) : Z :=
  int_of_float (float_of_int top * 0.95 + float_of_int bottom * 0.05)%float.

Definition inner_color : rgba :=
  let '(rt, gt, bt) := color_top in
  let '(rb, gb, bb) := color_bottom in
  (mix_channel rt rb, mix_channel gt gb, mix_channel bt bb, 255).

Definition shine_offset (size : Z) : float := (glass_radius size * 0.25)%float.
Definition shine_radius (size : Z) : float := (glass_radius size * 0.15)%float.

Section Script.
Context {B : Backend}.

Definition angle : float := math_radians 45.

Definition handle_start_x (size : Z) : float :=
  (center_x size + glass_radius size * math_cos angle)%float.
Definition handle_start_y (size : Z) : float :=
  (center_y size + glass_radius size * math_sin angle)%float.
Definition handle_end_x (size : Z) : float :=
  (handle_start_x size + handle_length size * math_cos angle)%float.
Definition handle_end_y (size : Z) : float :=
  (handle_start_y size + handle_length size * math_sin angle)%float.

(** Lines 17-22: the gradient background, one line per row. *)
Definition draw_gradient (draw : ref) (size : Z) : M unit :=
  for_each (range size) (fun y =>
    draw_line draw (PyInt 0, PyInt y) (PyInt size, PyInt y)
              (gradient_color size y) 0).

(** Lines 36-57: the ring, an outer white disc and an inner disc over it. *)
Definition draw_ring (draw : ref) (size : Z) : M unit :=
  let center_x := center_x size in
  let center_y := center_y size in
  let glass_radius := glass_radius size in
  let ring_width := ring_width size in
  draw_ellipse draw
    (center_x - glass_radius - ring_width / 2)
    (center_y - glass_radius - ring_width / 2)
    (center_x + glass_radius + ring_width / 2)
    (center_y + glass_radius + ring_width / 2)
    white ;;
  draw_ellipse draw
    (center_x - glass_radius + ring_width / 2)
    (center_y - glass_radius + ring_width / 2)
    (center_x + glass_radius - ring_width / 2)
    (center_y + glass_radius - ring_width / 2)
    inner_color.

(** Lines 59-80: the handle and its round end. *)
Definition draw_handle (draw : ref) (size : Z) : M unit :=
  let handle_width := handle_width size in
  let handle_end_x := handle_end_x size in
  let handle_end_y := handle_end_y size in
  draw_line draw
    (PyFloat (handle_start_x size), PyFloat (handle_start_y size))
    (PyFloat handle_end_x, PyFloat handle_end_y)
    white (int_of_float handle_width) ;;
  draw_ellipse draw
    (handle_end_x - handle_width / 2)
    (handle_end_y - handle_width / 2)
    (handle_end_x + handle_width / 2)
    (handle_end_y + handle_width / 2)
    white.

(** Lines 83-94: the highlight, on a layer of its own. *)
Definition make_shine (size : Z) : M ref :=
  let center_x := center_x size in
  let center_y := center_y size in
  let shine_offset := shine_offset size in
  let shine_radius := shine_radius size in
  shine_img ← Image_new size size (0, 0, 0, 0);
  shine_draw ← ImageDraw_Draw shine_img;
  draw_ellipse shine_draw
    (center_x - shine_offset - shine_radius)
    (center_y - shine_offset - shine_radius)
    (center_x - shine_offset + shine_radius)
    (center_y - shine_offset + shine_radius)
    shine_color ;;
  mret shine_img.

(** Lines 9-94, everything before the composite: the two layers. *)
Definition draw_layers (size : Z) : M (ref * ref) :=
  img ← Image_new size size (0, 0, 0, 0);
  draw ← ImageDraw_Draw img;
  draw_gradient draw size ;;
  draw_ring draw size ;;
  draw_handle draw size ;;
  shine_img ← make_shine size;
  mret (img, shine_img).

(** [create_app_icon(size)], lines 7-97. *)
Definition create_app_icon (size : Z) : M ref :=
  img ← Image_new size size (0, 0, 0, 0);
  draw ← ImageDraw_Draw img;
  draw_gradient draw size ;;
  draw_ring draw size ;;
  draw_handle draw size ;;
  shine_img ← make_shine size;
  Image_alpha_composite img shine_img.

(** The image a call returns, when it returns one. *)
Definition render (size : Z) (h : heap) : option Image :=
  match create_app_icon size h with
  | Some (img, h') => h' !! img
  | None => None
  end.
End Script.


(** ** What the script computes, call by call

    The coverage of each drawing call, and the canvas after each block. *)

Section Denotation.
Context {B : Backend}.

Definition outer_mask (size : Z) : Z -> Z -> bool :=
  ellipse_mask
    (int_of_float (center_x size - glass_radius size - ring_width size / 2))
    (int_of_float (center_y size - glass_radius size - ring_width size / 2))
    (int_of_float (center_x size + glass_radius size + ring_width size / 2))
    (int_of_float (center_y size + glass_radius size + ring_width size / 2)).

Definition inner_mask (size : Z) : Z -> Z -> bool :=
  ellipse_mask
    (int_of_float (center_x size - glass_radius size + ring_width size / 2))
    (int_of_float (center_y size - glass_radius size + ring_width size / 2))
    (int_of_float (center_x size + glass_radius size - ring_width size / 2))
    (int_of_float (center_y size + glass_radius size - ring_width size / 2)).

Definition handle_mask (size : Z) : Z -> Z -> bool :=
  line_mask
    (int_of_float (handle_start_x size)) (int_of_float (handle_start_y size))
    (int_of_float (handle_end_x size)) (int_of_float (handle_end_y size))
    (int_of_float (handle_width size)).

Definition cap_mask (size : Z) : Z -> Z -> bool :=
  ellipse_mask
    (int_of_float (handle_end_x size - handle_width size / 2))
    (int_of_float (handle_end_y size - handle_width size / 2))
    (int_of_float (handle_end_x size + handle_width size / 2))
    (int_of_float (handle_end_y size + handle_width size / 2)).

Definition shine_mask (size : Z) : Z -> Z -> bool :=
  ellipse_mask
    (int_of_float (center_x size - shine_offset size - shine_radius size))
    (int_of_float (center_y size - shine_offset size - shine_radius size))
    (int_of_float (center_x size - shine_offset size + shine_radius size))
    (int_of_float (center_y size - shine_offset size + shine_radius size)).

(** The fresh canvas of [Image.new('RGBA', (size, size), (0, 0, 0, 0))]. *)
Definition blank (size : Z) : Image :=
  {| width := size; height := size; pixels := fun _ _ => (0, 0, 0, 0) |}.

Definition gradient_row (size : Z) (im : Image) (y : Z) : Image :=
  paint (line_mask 0 y size y 0) (gradient_color size y) im.

Definition with_gradient (size : Z) (im : Image) : Image :=
  fold_left (gradient_row size) (range size) im.

Definition with_ring (size : Z) (im : Image) : Image :=
  paint (inner_mask size) inner_color (paint (outer_mask size) white im).

Definition with_handle (size : Z) (im : Image) : Image :=
  paint (cap_mask size) white (paint (handle_mask size) white im).

(** The main canvas just before the composite, the highlight layer, and the
    image returned. *)
Definition background (size : Z) : Image := with_gradient size (blank size).
Definition canvas (size : Z) : Image :=
  with_handle size (with_ring size (background size)).
Definition shine_layer (size : Z) : Image :=
  paint (shine_mask size) shine_color (blank size).
Definition icon (size : Z) : Image :=
  composite (canvas size) (shine_layer size).

End Denotation.

(** ** Geometry of the drawing calls, in pixels *)

Definition box : Type := Z * Z * Z * Z.

Definition pixel_box (x0 y0 x1 y1 : float) : box :=
  (int_of_float x0, int_of_float y0, int_of_float x1, int_of_float y1).

Definition outer_box (size : Z) : box :=
  pixel_box (center_x size - glass_radius size - ring_width size / 2)
            (center_y size - glass_radius size - ring_width size / 2)
            (center_x size + glass_radius size + ring_width size / 2)
            (center_y size + glass_radius size + ring_width size / 2).

Definition inner_box (size : Z) : box :=
  pixel_box (center_x size - glass_radius size + ring_width size / 2)
            (center_y size - glass_radius size + ring_width size / 2)
            (center_x size + glass_radius size - ring_width size / 2)
            (center_y size + glass_radius size - ring_width size / 2).

Definition shine_box (size : Z) : box :=
  pixel_box (center_x size - shine_offset size - shine_radius size)
            (center_y size - shine_offset size - shine_radius size)
            (center_x size - shine_offset size + shine_radius size)
            (center_y size - shine_offset size + shine_radius size).

(** The point at distance [r] from [(cx, cy)] in the direction whose cosine
    and sine are [c] and [s]. *)
Definition point_toward (cx cy r c s : float) : float * float :=
  ((cx + r * c)%float, (cy + r * s)%float).

(** End points of the handle and box of its cap, for a direction [(c, s)]. *)
Definition handle_box (size : Z) (c s : float) : box :=
  let '(sx, sy) := point_toward (center_x size) (center_y size)
                                (glass_radius size) c s in
  let '(ex, ey) := point_toward sx sy (handle_length size) c s in
  pixel_box sx sy ex ey.

Definition cap_box (size : Z) (c s : float) : box :=
  let '(sx, sy) := point_toward (center_x size) (center_y size)
                                (glass_radius size) c s in
  let '(ex, ey) := point_toward sx sy (handle_length size) c s in
  pixel_box (ex - handle_width size / 2) (ey - handle_width size / 2)
            (ex + handle_width size / 2) (ey + handle_width size / 2).

(** The pixel holding the glass centre, and the one [glass_radius] above. *)
Definition glass_center (size : Z) : Z * Z :=
  (int_of_float (center_x size), int_of_float (center_y size)).

Definition ring_top (size : Z) : Z * Z :=
  (int_of_float (center_x size),
   int_of_float (center_y size - glass_radius size)).

Definition inside_box (b : box) (x y : Z) : bool :=
  let '(x0, y0, x1, y1) := b in
  (x0 <=? x) && (x <=? x1) && (y0 <=? y) && (y <=? y1).

(** [(x, y)] is at least two pixels inside the ellipse inscribed in [b]. *)
Definition well_inside (b : box) (x y : Z) : bool :=
  let '(x0, y0, x1, y1) := b in
  inside_box b x y &&
  ((Z.abs (2 * x - x0 - x1) + 4) ^ 2 * (y1 - y0) ^ 2 +
   (Z.abs (2 * y - y0 - y1) + 4) ^ 2 * (x1 - x0) ^ 2
     <=? (x1 - x0) ^ 2 * (y1 - y0) ^ 2).

(** [(x, y)] is within [w] pixels of the box spanned by a segment's ends. *)
Definition near_segment (b : box) (w x y : Z) : bool :=
  let '(x0, y0, x1, y1) := b in
  inside_box (Z.min x0 x1 - Z.max w 0, Z.min y0 y1 - Z.max w 0,
              Z.max x0 x1 + Z.max w 0, Z.max y0 y1 + Z.max w 0) x y.

(** Neither the handle, its cap nor the highlight can reach [(x, y)]. *)
Definition overlays_clear (size x y : Z) : bool :=
  negb (near_segment (handle_box size cos45 sin45)
                     (int_of_float (handle_width size)) x y)
  && negb (inside_box (cap_box size cos45 sin45) x y)
  && negb (inside_box (shine_box size) x y).

Definition center_shows_inner (size : Z) : bool :=
  let '(x, y) := glass_center size in
  inside_box (0, 0, size - 1, size - 1) x y
  && well_inside (inner_box size) x y
  && overlays_clear size x y.

Definition ring_top_shows_white (size : Z) : bool :=
  let '(x, y) := ring_top size in
  inside_box (0, 0, size - 1, size - 1) x y
  && well_inside (outer_box size) x y
  && negb (inside_box (inner_box size) x y)
  && overlays_clear size x y.

Definition last_row_is_bottom (size : Z) : bool :=
  let '(r, g, b, a) := gradient_color size (size - 1) in
  let '(rb, gb, bb) := color_bottom in
  (r =? rb) && (g =? gb) && (b =? bb) && (a =? 255).

(** [f] holds at [lo], [lo + 1], ..., [lo + n - 1]. *)
Fixpoint all_from (n : nat) (lo : Z) (f : Z -> bool) : bool :=
  match n with
  | O => true
  | S n' => f lo && all_from n' (lo + 1) f
  end.

(** ** Alpha-over, as the specification words it

    [src] with opacity [sa / 255] over an opaque [dst]: each channel is
    [s * a + d * (1 - a)], rounded to the nearest integer. *)
Definition over_channel (s sa d : Z) : Z :=
  (2 * (s * sa + d * (255 - sa)) + 255) / (2 * 255).

Definition over_opaque (dst src : rgba) : rgba :=
  let '(dr, dg, db, _) := dst in
  let '(sr, sg, sb, sa) := src in
  (over_channel sr sa dr, over_channel sg sa dg, over_channel sb sa db, 255).

Definition is_byte (c : Z) : bool := (0 <=? c) && (c <=? 255).

(** On an opaque pixel of red [c], the blend of the highlight colour is the
    rounded alpha-over value and stays opaque. *)
Definition shine_blend (c : Z) : Z :=
  let '(r, _, _, _) := composite_pixel (c, 0, 0, 255) shine_color in r.

Definition shine_blend_ok (c : Z) : bool :=
  shine_blend c =? over_channel 255 60 c.

(** ** A reference backend

    A plain rasterizer in integer arithmetic, used to run the script on
    concrete sizes: thin lines by the midpoint rule, wide lines as the
    rectangle of half-width [w / 2] about the segment, ellipses by the
    pixel-centre test. *)
Definition reference_line_mask (x0 y0 x1 y1 w x y : Z) : bool :=
  let dx := x1 - x0 in
  let dy := y1 - y0 in
  let cross := dy * (x - x0) - dx * (y - y0) in
  if w <=? 1 then
    inside_box (Z.min x0 x1, Z.min y0 y1, Z.max x0 x1, Z.max y0 y1) x y
    && (2 * Z.abs cross <=? Z.max (Z.abs dx) (Z.abs dy))
  else
    let dot := dx * (x - x0) + dy * (y - y0) in
    let len2 := dx * dx + dy * dy in
    near_segment (x0, y0, x1, y1) w x y
    && (0 <=? dot) && (dot <=? len2) && (4 * cross * cross <=? w * w * len2).

Definition reference_ellipse_mask (x0 y0 x1 y1 x y : Z) : bool :=
  inside_box (x0, y0, x1, y1) x y
  && ((2 * x - x0 - x1) ^ 2 * (y1 - y0) ^ 2
      + (2 * y - y0 - y1) ^ 2 * (x1 - x0) ^ 2
        <=? (x1 - x0) ^ 2 * (y1 - y0) ^ 2).

Definition reference_cos (x : float) : float :=
  if (x =? math_radians 45)%float then cos45 else nan.

Definition reference_sin (x : float) : float :=
  if (x =? math_radians 45)%float then sin45 else nan.

Definition reference_backend : Backend := {|
  line_mask := reference_line_mask;
  ellipse_mask := reference_ellipse_mask;
  math_cos := reference_cos;
  math_sin := reference_sin
|}.

Definition row_colors_are_bytes (size : Z) : bool :=
  all_from (Z.to_nat size) 0 (fun y =>
    let '(r, g, b, a) := gradient_color size y in
    is_byte r && is_byte g && is_byte b && is_byte a).

(** ** More geometry: boxes against boxes *)

Definition canvas_box (size : Z) : box := (0, 0, size - 1, size - 1).

(** [q] lies inside [b]. *)
Definition box_inside (q b : box) : bool :=
  let '(qx0, qy0, qx1, qy1) := q in
  let '(x0, y0, x1, y1) := b in
  (x0 <=? qx0) && (qx1 <=? x1) && (y0 <=? qy0) && (qy1 <=? y1).

(** No pixel lies in both [p] and [q]. *)
Definition boxes_apart (p q : box) : bool :=
  let '(px0, py0, px1, py1) := p in
  let '(qx0, qy0, qx1, qy1) := q in
  (px1 <? qx0) || (qx1 <? px0) || (py1 <? qy0) || (qy1 <? py0).

(** The box a line of width [w] between the ends [b] can reach. *)
Definition segment_reach (b : box) (w : Z) : box :=
  let '(x0, y0, x1, y1) := b in
  (Z.min x0 x1 - Z.max w 0, Z.min y0 y1 - Z.max w 0,
   Z.max x0 x1 + Z.max w 0, Z.max y0 y1 + Z.max w 0).

(** The largest doubled distance from the middle of [c0 .. c1] that a
    coordinate of [lo .. hi] can have. *)
Definition worst_offset (lo hi c0 c1 : Z) : Z :=
  Z.max (Z.abs (2 * lo - c0 - c1)) (Z.abs (2 * hi - c0 - c1)).

(** Every pixel of [q] is at least two pixels inside the ellipse inscribed
    in [b]. *)
Definition box_well_inside (q b : box) : bool :=
  let '(qx0, qy0, qx1, qy1) := q in
  let '(x0, y0, x1, y1) := b in
  box_inside q b &&
  ((worst_offset qx0 qx1 x0 x1 + 4) ^ 2 * (y1 - y0) ^ 2 +
   (worst_offset qy0 qy1 y0 y1 + 4) ^ 2 * (x1 - x0) ^ 2
     <=? (x1 - x0) ^ 2 * (y1 - y0) ^ 2).

Definition handle_reach (size : Z) : box :=
  segment_reach (handle_box size cos45 sin45)
                (int_of_float (handle_width size)).

(** Every shape's box, and all the handle can reach, is on the canvas. *)
Definition shapes_on_canvas (size : Z) : bool :=
  box_inside (outer_box size) (canvas_box size)
  && box_inside (inner_box size) (canvas_box size)
  && box_inside (handle_reach size) (canvas_box size)
  && box_inside (cap_box size cos45 sin45) (canvas_box size)
  && box_inside (shine_box size) (canvas_box size).

(** The highlight's box is on the canvas, well inside the inner disc, and
    out of reach of the handle and its cap. *)
Definition highlight_in_glass (size : Z) : bool :=
  box_inside (shine_box size) (canvas_box size)
  && box_well_inside (shine_box size) (inner_box size)
  && boxes_apart (shine_box size) (handle_reach size)
  && boxes_apart (shine_box size) (cap_box size cos45 sin45).

(** The pixel of the handle's far end is on the canvas, well inside the
    cap, and outside the highlight's box. *)
Definition handle_end_shows_white (size : Z) : bool :=
  let '(_, _, ex, ey) := handle_box size cos45 sin45 in
  inside_box (canvas_box size) ex ey
  && well_inside (cap_box size cos45 sin45) ex ey
  && negb (inside_box (shine_box size) ex ey).

(** The three checks above in one pass, each box computed once. *)
Definition geometry_summary (size : Z) : bool * bool * bool :=
  let n := float_of_int size in
  let c := (n * 0.42)%float in
  let gr := (n * 0.24)%float in
  let rw := (n * 0.055)%float in
  let hw := (n * 0.07)%float in
  let hl := (n * 0.28)%float in
  let o0 := int_of_float (c - gr - rw / 2) in
  let o1 := int_of_float (c + gr + rw / 2) in
  let i0 := int_of_float (c - gr + rw / 2) in
  let i1 := int_of_float (c + gr - rw / 2) in
  let off := (gr * 0.25)%float in
  let rad := (gr * 0.15)%float in
  let s0 := int_of_float (c - off - rad) in
  let s1 := int_of_float (c - off + rad) in
  let sx := (c + gr * cos45)%float in
  let sy := (c + gr * sin45)%float in
  let ex := (sx + hl * cos45)%float in
  let ey := (sy + hl * sin45)%float in
  let iex := int_of_float ex in
  let iey := int_of_float ey in
  let reach :=
    segment_reach (int_of_float sx, int_of_float sy, iex, iey)
                  (int_of_float hw) in
  let cap :=
    (int_of_float (ex - hw / 2), int_of_float (ey - hw / 2),
     int_of_float (ex + hw / 2), int_of_float (ey + hw / 2)) in
  let canvas := canvas_box size in
  let outer := (o0, o0, o1, o1) in
  let inner := (i0, i0, i1, i1) in
  let shine := (s0, s0, s1, s1) in
  (box_inside outer canvas && box_inside inner canvas
   && box_inside reach canvas && box_inside cap canvas
   && box_inside shine canvas,
   box_inside shine canvas && box_well_inside shine inner
   && boxes_apart shine reach && boxes_apart shine cap,
   inside_box canvas iex iey && well_inside cap iex iey
   && negb (inside_box shine iex iey)).

Definition geometry_ok (size : Z) : bool :=
  let '(on_canvas, in_glass, end_white) := geometry_summary size in
  on_canvas && ((size <? 41) || in_glass) && ((size <? 114) || end_white).

(** Channel by channel, [c] is at most [d]. *)
Definition channels_le (c d : rgba) : bool :=
  let '(cr, cg, cb, ca) := c in
  let '(dr, dg, db, da) := d in
  (cr <=? dr) && (cg <=? dg) && (cb <=? db) && (ca <=? da).

(** Down the rows of a gradient of [size] rows no channel ever rises, and
    every row lies between the bottom and the top colour: [n] rows from row
    [y] on, each at most the one before, [prev] before the first. *)
Fixpoint descends_from (n : nat) (size y : Z) (prev : rgba) : bool :=
  match n with
  | O => true
  | S n' =>
      let c := gradient_color size y in
      channels_le (196, 88, 54, 255) c && channels_le c prev
      && descends_from n' size (y + 1) c
  end.

Definition gradient_descends (size : Z) : bool :=
  descends_from (Z.to_nat size) size 0 (217, 119, 87, 255).

(** The highlight never darkens a channel, and keeps it a byte. *)
Definition shine_brightens (c : Z) : bool :=
  (c <=? shine_blend c) && (shine_blend c <=? 255).

(** ** The entry point (lines 99-103)

    Beside the heap of images the script's run has the files it writes and
    its standard output.  How PIL encodes a PNG, and whether the operating
    system lets the file be opened for writing, are not the script's: they
    are parameters. *)
Class System : Type := {
  png_encode : Image -> list Z;
  can_open : String.string -> bool
}.

Record world : Type := mkWorld {
  objects : heap;
  files : String.string -> option (list Z);
  stdout : list String.string
}.

Definition IO (A : Type) : Type := world -> option (A * world).

#[export] Instance IO_ret : MRet IO := fun A a w => Some (a, w).
#[export] Instance IO_bind : MBind IO := fun A B f m w =>
  match m w with
  | Some (a, w') => f a w'
  | None => None
  end.

(** A computation on the heap, run in the world. *)
Definition on_heap {A : Type} (m : M A) : IO A :=
  fun w =>
    match m (objects w) with
    | Some (a, h') =>
        Some (a, {| objects := h'; files := files w; stdout := stdout w |})
    | None => None
    end.

Section EntryPoint.
Context {B : Backend} {S : System}.

(** [img.save(path, 'PNG')]: the file is opened for writing, which raises
    when the system refuses (a missing directory, say), and receives the
    encoded image. *)
Definition Image_save (img : ref) (path : String.string) : IO unit :=
  fun w =>
    match objects w !! img with
    | Some im =>
        if can_open path
        then Some (tt, {| objects := objects w;
                          files := fun p =>
                            if String.eqb p path then Some (png_encode im)
                            else files w p;
                          stdout := stdout w |})
        else None
    | None => None
    end.

(** [print(s)] *)
Definition print (s : String.string) : IO unit :=
  fun w =>
    Some (tt, {| objects := objects w; files := files w;
                 stdout := stdout w ++ [s] |}).

Definition output_path : String.string :=
  "ClaudeHistorySearch/Assets.xcassets/AppIcon.appiconset/AppIcon.png"%string.

Definition main : IO unit :=
  icon ← on_heap (create_app_icon 1024);
  Image_save icon output_path ;;
  print (String.append "Icon saved to "%string output_path).

End EntryPoint.

(** A system that lets every file be written and stores the raw bytes, and
    the world of a fresh run, to run [main] on. *)
Definition reference_system : System := {|
  png_encode := tobytes;
  can_open := fun _ => true
|}.

Definition fresh_world : world :=
  {| objects := []; files := fun _ => None; stdout := [] |}.

(** Boolean comparisons on [Z] to propositions, for [lia]. *)
Ltac zbool :=
  repeat first
    [ rewrite andb_true_iff in * | rewrite orb_true_iff in *
    | rewrite negb_true_iff in * | rewrite andb_false_iff in *
    | rewrite Z.leb_le in * | rewrite Z.ltb_lt in * | rewrite Z.eqb_eq in *
    | rewrite Z.leb_gt in * | rewrite Z.ltb_ge in * | rewrite Z.eqb_neq in * ].

(** ** Running the script *)

Lemma bind_run {A B : Type} (m : M A) (f : A -> M B) (h h' : heap) (a : A) :
  m h = Some (a, h') -> (m ≫= f) h = f a h'.
Proof. intros E. unfold mbind, M_bind. now rewrite E. Qed.

Lemma bind_fail {A B : Type} (m : M A) (f : A -> M B) (h : heap) :
  m h = None -> (m ≫= f) h = None.
Proof. intros E. unfold mbind, M_bind. now rewrite E. Qed.

Lemma update_run (r : ref) (f : Image -> Image) (h : heap) (im : Image) :
  h !! r = Some im -> update r f h = Some (tt, <[r := f im]> h).
Proof. intros E. unfold update. now rewrite E. Qed.

Lemma lookup_updated (r : ref) (h : heap) (im im' : Image) :
  h !! r = Some im -> <[r := im']> h !! r = Some im'.
Proof.
  intros E. apply list_lookup_insert_eq. now apply lookup_lt_Some in E.
Qed.

Lemma for_each_update (r : ref) (F : Image -> Z -> Image) (ys : list Z) :
  forall (h : heap) (im : Image),
    h !! r = Some im ->
    for_each ys (fun y => update r (fun im => F im y)) h
    = Some (tt, <[r := fold_left F ys im]> h).
Proof.
  induction ys as [|y ys IH]; intros h im E; cbn [for_each fold_left].
  - unfold mret, M_ret. now rewrite list_insert_id.
  - rewrite (bind_run _ _ _ _ _ (update_run r _ h im E)).
    rewrite (IH _ (F im y) (lookup_updated r h im _ E)).
    now rewrite list_insert_insert_eq.
Qed.

Lemma alloc_lookup (h : heap) (im : Image) : (h ++ [im]) !! length h = Some im.
Proof. now rewrite list_lookup_middle. Qed.

Lemma alloc_update (h : heap) (im im' : Image) :
  <[length h := im']> (h ++ [im]) = h ++ [im'].
Proof.
  rewrite insert_app_r_alt by lia. now rewrite Nat.sub_diag.
Qed.

Section Runs.
Context {B : Backend}.

Lemma draw_gradient_run (r : ref) (size : Z) (h : heap) (im : Image) :
  h !! r = Some im ->
  draw_gradient r size h = Some (tt, <[r := with_gradient size im]> h).
Proof.
  intros E. unfold draw_gradient, draw_line.
  apply (for_each_update r (gradient_row size) (range size) h im E).
Qed.

Lemma draw_ring_run (r : ref) (size : Z) (h : heap) (im : Image) :
  h !! r = Some im ->
  draw_ring r size h = Some (tt, <[r := with_ring size im]> h).
Proof.
  intros E. unfold draw_ring, draw_ellipse.
  rewrite (bind_run _ _ _ _ _ (update_run r _ h im E)).
  rewrite (update_run r _ _ _ (lookup_updated r h im _ E)).
  now rewrite list_insert_insert_eq.
Qed.

Lemma draw_handle_run (r : ref) (size : Z) (h : heap) (im : Image) :
  h !! r = Some im ->
  draw_handle r size h = Some (tt, <[r := with_handle size im]> h).
Proof.
  intros E. unfold draw_handle, draw_line, draw_ellipse.
  rewrite (bind_run _ _ _ _ _ (update_run r _ h im E)).
  rewrite (update_run r _ _ _ (lookup_updated r h im _ E)).
  now rewrite list_insert_insert_eq.
Qed.

Lemma Image_new_run (size : Z) (c : rgba) (h : heap) :
  0 <= size ->
  Image_new size size c h
  = Some (length h,
          h ++ [{| width := size; height := size; pixels := fun _ _ => c |}]).
Proof.
  intros Hs. unfold Image_new.
  destruct (size <? 0) eqn:E; [lia|]. reflexivity.
Qed.

Lemma Image_new_negative (size : Z) (c : rgba) (h : heap) :
  size < 0 -> Image_new size size c h = None.
Proof.
  intros Hs. unfold Image_new.
  destruct (size <? 0) eqn:E; [reflexivity|lia].
Qed.

Lemma make_shine_run (size : Z) (h : heap) :
  0 <= size ->
  make_shine size h = Some (length h, h ++ [shine_layer size]).
Proof.
  intros Hs. unfold make_shine, ImageDraw_Draw, draw_ellipse.
  rewrite (bind_run _ _ _ _ _ (Image_new_run size _ h Hs)).
  rewrite (bind_run _ _ _ _ _ eq_refl).
  rewrite (bind_run _ _ _ _ _
             (update_run (length h) _ _ _ (alloc_lookup h _))).
  now rewrite alloc_update.
Qed.

End Runs.

(** Drawing never changes the size of an image. *)
Section Sizes.
Context {B : Backend}.

Lemma with_gradient_size (size : Z) (im : Image) :
  width (with_gradient size im) = width im /\
  height (with_gradient size im) = height im.
Proof.
  unfold with_gradient. generalize (range size) as ys. intros ys. revert im.
  induction ys as [|y ys IH]; intros im; cbn [fold_left]; [done|].
  destruct (IH (gradient_row size im y)) as [-> ->]. done.
Qed.

Lemma canvas_size (size : Z) :
  width (canvas size) = size /\ height (canvas size) = size.
Proof.
  unfold canvas, with_handle, with_ring, background; cbn [width height paint].
  apply (with_gradient_size size (blank size)).
Qed.

Lemma icon_size (size : Z) :
  width (icon size) = size /\ height (icon size) = size.
Proof. unfold icon, composite; cbn [width height]. apply canvas_size. Qed.

Lemma create_app_icon_run (size : Z) (h : heap) :
  0 <= size ->
  create_app_icon size h
  = Some (S (S (length h)), h ++ [canvas size; shine_layer size; icon size]).
Proof.
  intros Hs. unfold create_app_icon, ImageDraw_Draw.
  rewrite (bind_run _ _ _ _ _ (Image_new_run size _ h Hs)).
  rewrite (bind_run _ _ _ _ _ eq_refl).
  rewrite (bind_run _ _ _ _ _
             (draw_gradient_run (length h) size _ _ (alloc_lookup h _))).
  rewrite alloc_update.
  rewrite (bind_run _ _ _ _ _
             (draw_ring_run (length h) size _ _ (alloc_lookup h _))).
  rewrite alloc_update.
  rewrite (bind_run _ _ _ _ _
             (draw_handle_run (length h) size _ _ (alloc_lookup h _))).
  rewrite alloc_update.
  change (with_handle size _) with (canvas size).
  rewrite (bind_run _ _ _ _ _ (make_shine_run size _ Hs)).
  unfold Image_alpha_composite.
  rewrite lookup_app_l by (rewrite length_app; simpl; lia).
  rewrite alloc_lookup, alloc_lookup.
  destruct (canvas_size size) as [-> ->].
  cbn [shine_layer paint blank width height].
  rewrite !Z.eqb_refl. cbn [andb]. unfold alloc.
  rewrite !length_app. cbn [length].
  rewrite <- !app_assoc. cbn [app].
  do 3 f_equal. lia.
Qed.

Lemma create_app_icon_negative (size : Z) (h : heap) :
  size < 0 -> create_app_icon size h = None.
Proof.
  intros Hs. unfold create_app_icon.
  apply bind_fail, Image_new_negative, Hs.
Qed.

Lemma render_icon (size : Z) (h : heap) :
  0 <= size -> render size h = Some (icon size).
Proof.
  intros Hs. unfold render. rewrite (create_app_icon_run size h Hs).
  replace (S (S (length h))) with (length (h ++ [canvas size; shine_layer size]))
    by (rewrite length_app; simpl; lia).
  replace (h ++ [canvas size; shine_layer size; icon size])
    with ((h ++ [canvas size; shine_layer size]) ++ [icon size])
    by (now rewrite <- app_assoc).
  apply alloc_lookup.
Qed.

End Sizes.

(** ** Ranges and boxes *)

Lemma elem_of_range (n y : Z) : In y (range n) <-> 0 <= y < n.
Proof.
  unfold range. rewrite in_map_iff. split.
  - intros (k & <- & Hk). apply in_seq in Hk. lia.
  - intros Hy. exists (Z.to_nat y). split; [lia|]. apply in_seq. lia.
Qed.

Lemma length_range (n : Z) : length (range n) = Z.to_nat n.
Proof. unfold range. now rewrite length_map, length_seq. Qed.

Lemma all_from_spec (f : Z -> bool) (n : nat) :
  forall lo z, all_from n lo f = true -> lo <= z < lo + Z.of_nat n ->
    f z = true.
Proof.
  induction n as [|n IH]; intros lo z Hall Hz; [lia|].
  cbn [all_from] in Hall. apply andb_true_iff in Hall as [Hlo Hrest].
  destruct (Z.eq_dec z lo) as [->|Hne]; [exact Hlo|].
  apply (IH (lo + 1)); [exact Hrest|lia].
Qed.

Lemma inside_box_spec (x0 y0 x1 y1 x y : Z) :
  inside_box (x0, y0, x1, y1) x y = true <-> (x0 <= x <= x1 /\ y0 <= y <= y1).
Proof. unfold inside_box. zbool. lia. Qed.

(** ** Floats: multiplication commutes *)

Lemma SFmul_comm (x y : spec_float) : SF64mul x y = SF64mul y x.
Proof.
  unfold SF64mul, SFmul.
  destruct x as [sx|sx| |sx mx ex], y as [sy|sy| |sy my ey];
    try reflexivity;
    try (now rewrite (xorb_comm sx sy)).
  now rewrite (xorb_comm sx sy), (Pos.mul_comm mx my), (Z.add_comm ex ey).
Qed.

Lemma float_mul_comm (x y : float) : (x * y)%float = (y * x)%float.
Proof.
  rewrite <- (SF2Prim_Prim2SF (x * y)), <- (SF2Prim_Prim2SF (y * x)).
  now rewrite !mul_spec, SFmul_comm.
Qed.

(** ** The reference backend obeys the laws *)

Lemma square_nonneg (t : Z) : 0 <= t ^ 2.
Proof. nia. Qed.

Lemma square_le_margin (t : Z) : t ^ 2 <= (Z.abs t + 4) ^ 2.
Proof. nia. Qed.

Lemma reference_laws : BackendLaws reference_backend.
Proof.
  split; cbn [line_mask ellipse_mask math_cos math_sin reference_backend].
  - intros x0 x1 y w x y' Hx Hw. unfold reference_line_mask.
    destruct (w <=? 1) eqn:E; [|zbool; lia].
    apply eq_true_iff_eq. unfold inside_box. zbool.
    split.
    + intros [[[[? ?] ?] ?] _]. lia.
    + intros [[-> ?] ?]. repeat split; lia.
  - intros x0 y0 x1 y1 w Hw. unfold reference_line_mask.
    destruct (w <=? 1) eqn:E; [|zbool; lia].
    unfold inside_box. zbool.
    replace ((y1 - y0) * (x1 - x0) - (x1 - x0) * (y1 - y0)) with 0 by lia.
    lia.
  - intros x0 y0 x1 y1 w x y. unfold reference_line_mask, near_segment.
    destruct (w <=? 1) eqn:E; unfold inside_box; zbool; lia.
  - intros x0 y0 x1 y1 x y. unfold reference_ellipse_mask, inside_box.
    zbool. lia.
  - intros x0 y0 x1 y1 x y Hx Hy Hin.
    unfold reference_ellipse_mask, inside_box. zbool.
    repeat split; [lia|lia|lia|lia|].
    etransitivity; [|exact Hin].
    apply Z.add_le_mono; apply Z.mul_le_mono_nonneg_r;
      auto using square_nonneg, square_le_margin.
  - reflexivity.
  - reflexivity.
Qed.

(** ** Pixels of the gradient background *)

Section Gradient.
Context {B : Backend} {L : BackendLaws B}.

(** After any sequence of rows has been drawn, a pixel of the canvas holds
    the colour of its own row if that row was drawn, else what it held. *)
Lemma gradient_rows_pixels (size : Z) (ys : list Z) :
  0 <= size ->
  forall (im : Image) (x y : Z),
    pixels (fold_left (gradient_row size) ys im) x y
    = if in_bounds im x y && (x <=? size) && existsb (Z.eqb y) ys
      then gradient_color size y
      else pixels im x y.
Proof.
  intros Hs. induction ys as [|y0 ys IH]; intros im x y; cbn [fold_left existsb].
  - now rewrite andb_false_r.
  - rewrite IH.
    change (in_bounds (gradient_row size im y0) x y) with (in_bounds im x y).
    unfold gradient_row. cbn [paint pixels].
    rewrite (hline_exact 0 size y0 0 x y Hs) by lia.
    unfold in_bounds.
    destruct (0 <=? x) eqn:E0, (x <? width im) eqn:E1, (0 <=? y) eqn:E2,
      (y <? height im) eqn:E3, (x <=? size) eqn:E4, (y =? y0) eqn:E5,
      (existsb (Z.eqb y) ys) eqn:E6; cbn [andb orb]; try reflexivity.
    all: apply Z.eqb_eq in E5; now subst.
Qed.

Lemma with_gradient_pixel (size : Z) (im : Image) (x y : Z) :
  width im = size -> height im = size ->
  0 <= x < size -> 0 <= y < size ->
  pixels (with_gradient size im) x y = gradient_color size y.
Proof.
  intros Hw Hh Hx Hy. unfold with_gradient.
  rewrite gradient_rows_pixels by lia.
  assert (Hb : in_bounds im x y = true)
    by (unfold in_bounds; rewrite Hw, Hh; zbool; lia).
  assert (Hr : existsb (Z.eqb y) (range size) = true).
  { apply existsb_exists. exists y. split; [now apply elem_of_range|].
    apply Z.eqb_refl. }
  rewrite Hb, Hr. replace (x <=? size) with true by (symmetry; zbool; lia).
  reflexivity.
Qed.

Lemma with_gradient_getpixel (size : Z) (im : Image) (x y : Z) :
  width im = size -> height im = size ->
  0 <= x < size -> 0 <= y < size ->
  getpixel (with_gradient size im) x y = Some (gradient_color size y).
Proof.
  intros Hw Hh Hx Hy. unfold getpixel.
  destruct (with_gradient_size size im) as [Hw' Hh'].
  replace (in_bounds (with_gradient size im) x y) with true
    by (symmetry; unfold in_bounds; rewrite Hw', Hh', Hw, Hh; zbool; lia).
  now rewrite with_gradient_pixel.
Qed.

End Gradient.

(** ** The gradient background (lines 17-22) *)

Lemma last_rows_checked :
  all_from (Z.to_nat (65536 - 33)) 34 last_row_is_bottom = true.
Proof. vm_cast_no_check (eq_refl true). Qed.

Lemma last_row_is_bottom_spec (size : Z) :
  last_row_is_bottom size = true ->
  gradient_color size (size - 1) = (196, 88, 54, 255).
Proof.
  unfold last_row_is_bottom, color_bottom.
  destruct (gradient_color size (size - 1)) as [[[r g] b] a].
  zbool. intros [[[-> ->] ->] ->]. reflexivity.
Qed.

Lemma first_row_is_top (size : Z) :
  1 <= size -> gradient_color size 0 = (217, 119, 87, 255).
Proof.
  intros Hs. unfold gradient_color, int_truediv. cbn [Z.eqb].
  destruct (size <? 0) eqn:E; [zbool; lia|].
  vm_compute. reflexivity.
Qed.

(** The gradient channels are bytes: checked for every row of every size up
    to 256, and of size 1024, the size the script is run at. *)
Lemma gradient_bytes_checked :
  all_from 256 1 row_colors_are_bytes && row_colors_are_bytes 1024 = true.
Proof. vm_cast_no_check (eq_refl true). Qed.

Section GradientClaims.
Context {B : Backend} {L : BackendLaws B}.

(** C1.  For every [size >= 1] and every row [y] of [range(size)], the
    gradient loop leaves every pixel of row [y] with one and the same colour:
    channel by channel [int(top + (bottom - top) * (y / size))] for
    top = (217, 119, 87) and bottom = (196, 88, 54), and alpha 255. *)
Theorem gradient_row_uniform (size : Z) (draw : ref) (h : heap) (im : Image) :
  1 <= size ->
  h !! draw = Some im -> width im = size -> height im = size ->
  exists im',
    draw_gradient draw size h = Some (tt, <[draw := im']> h) /\
    forall y, 0 <= y < size ->
      let t := int_truediv y size in
      forall x, 0 <= x < size ->
        getpixel im' x y
        = Some (int_of_float (217 + (196 - 217) * t)%float,
                int_of_float (119 + (88 - 119) * t)%float,
                int_of_float (87 + (54 - 87) * t)%float,
                255).
Proof.
  intros Hs Hd Hw Hh. exists (with_gradient size im). split.
  - now apply draw_gradient_run.
  - intros y Hy t x Hx.
    rewrite with_gradient_getpixel by assumption. reflexivity.
Qed.


End GradientClaims.

Lemma gradient_row_uniform_witness :
  exists im',
    draw_gradient (B := reference_backend) 0%nat 4 [blank 4]
    = Some (tt, <[0%nat := im']> [blank 4]) /\
    forall y, 0 <= y < 4 ->
      let t := int_truediv y 4 in
      forall x, 0 <= x < 4 ->
        getpixel im' x y
        = Some (int_of_float (217 + (196 - 217) * t)%float,
                int_of_float (119 + (88 - 119) * t)%float,
                int_of_float (87 + (54 - 87) * t)%float,
                255).
Proof.
  apply (gradient_row_uniform (L := reference_laws) 4 0%nat [blank 4] (blank 4));
    [lia | reflexivity | reflexivity | reflexivity].
Defined.



(** ** The ring (lines 25-57) *)

Lemma inner_color_value : inner_color = (215, 117, 85, 255).
Proof. vm_compute. reflexivity. Qed.

Lemma inner_color_mix :
  inner_color
  = (int_of_float (0.95 * 217 + 0.05 * 196)%float,
     int_of_float (0.95 * 119 + 0.05 * 88)%float,
     int_of_float (0.95 * 87 + 0.05 * 54)%float,
     255).
Proof. vm_compute. reflexivity. Qed.

Section Ring.
Context {B : Backend}.

Lemma with_ring_pixels (size : Z) (im : Image) (x y : Z) :
  pixels (with_ring size im) x y
  = if in_bounds im x y && inner_mask size x y then inner_color
    else if in_bounds im x y && outer_mask size x y then white
    else pixels im x y.
Proof. reflexivity. Qed.

(** C5.  The ring is two filled discs about [(0.42 * size, 0.42 * size)],
    each given to PIL by its bounding box, centre minus and plus the radius:
    first the outer one, radius [glass_radius + ring_width / 2], solid white
    with alpha 255; then over it the inner one, radius
    [glass_radius - ring_width / 2], in the colour
    [int(0.95 * top + 0.05 * bottom)], which is (215, 117, 85);
    [glass_radius = 0.24 * size] and [ring_width = 0.055 * size].  The inner
    disc wins where both cover a pixel. *)
Theorem ring_two_discs (size : Z) (draw : ref) (h : heap) (im : Image) :
  h !! draw = Some im ->
  let n := float_of_int size in
  let cx := (0.42 * n)%float in
  let cy := (0.42 * n)%float in
  let glass_radius := (0.24 * n)%float in
  let ring_width := (0.055 * n)%float in
  let outer :=
    ellipse_mask (int_of_float (cx - glass_radius - ring_width / 2))
                 (int_of_float (cy - glass_radius - ring_width / 2))
                 (int_of_float (cx + glass_radius + ring_width / 2))
                 (int_of_float (cy + glass_radius + ring_width / 2)) in
  let inner :=
    ellipse_mask (int_of_float (cx - glass_radius + ring_width / 2))
                 (int_of_float (cy - glass_radius + ring_width / 2))
                 (int_of_float (cx + glass_radius - ring_width / 2))
                 (int_of_float (cy + glass_radius - ring_width / 2)) in
  let mixed :=
    (int_of_float (0.95 * 217 + 0.05 * 196)%float,
     int_of_float (0.95 * 119 + 0.05 * 88)%float,
     int_of_float (0.95 * 87 + 0.05 * 54)%float,
     255) in
  mixed = (215, 117, 85, 255) /\
  exists im',
    draw_ring draw size h = Some (tt, <[draw := im']> h) /\
    width im' = width im /\ height im' = height im /\
    forall x y,
      pixels im' x y
      = if in_bounds im x y && inner x y then mixed
        else if in_bounds im x y && outer x y then (255, 255, 255, 255)
        else pixels im x y.
Proof.
  intros Hd n cx cy glass_radius ring_width outer inner mixed.
  split; [vm_compute; reflexivity|].
  exists (with_ring size im). split; [now apply draw_ring_run|].
  split; [reflexivity|]. split; [reflexivity|].
  intros x y. rewrite with_ring_pixels.
  subst mixed. rewrite <- inner_color_mix.
  subst outer inner cx cy glass_radius ring_width.
  rewrite (float_mul_comm 0.42 n), (float_mul_comm 0.24 n),
    (float_mul_comm 0.055 n).
  reflexivity.
Qed.

End Ring.

Lemma ring_two_discs_witness :
  let size := 1024 in
  let n := float_of_int size in
  let cx := (0.42 * n)%float in
  let cy := (0.42 * n)%float in
  let glass_radius := (0.24 * n)%float in
  let ring_width := (0.055 * n)%float in
  let outer :=
    ellipse_mask (Backend := reference_backend)
                 (int_of_float (cx - glass_radius - ring_width / 2))
                 (int_of_float (cy - glass_radius - ring_width / 2))
                 (int_of_float (cx + glass_radius + ring_width / 2))
                 (int_of_float (cy + glass_radius + ring_width / 2)) in
  let inner :=
    ellipse_mask (Backend := reference_backend)
                 (int_of_float (cx - glass_radius + ring_width / 2))
                 (int_of_float (cy - glass_radius + ring_width / 2))
                 (int_of_float (cx + glass_radius - ring_width / 2))
                 (int_of_float (cy + glass_radius - ring_width / 2)) in
  let mixed :=
    (int_of_float (0.95 * 217 + 0.05 * 196)%float,
     int_of_float (0.95 * 119 + 0.05 * 88)%float,
     int_of_float (0.95 * 87 + 0.05 * 54)%float,
     255) in
  mixed = (215, 117, 85, 255) /\
  exists im',
    draw_ring (B := reference_backend) 0%nat size [blank size]
    = Some (tt, <[0%nat := im']> [blank size]) /\
    width im' = width (blank size) /\ height im' = height (blank size) /\
    forall x y,
      pixels im' x y
      = if in_bounds (blank size) x y && inner x y then mixed
        else if in_bounds (blank size) x y && outer x y
             then (255, 255, 255, 255)
             else pixels (blank size) x y.
Proof.
  exact (ring_two_discs (B := reference_backend) 1024 0%nat [blank 1024]
           (blank 1024) eq_refl).
Defined.

(** ** The handle (lines 59-80) *)

Section Handle.
Context {B : Backend}.

Lemma with_handle_pixels (size : Z) (im : Image) (x y : Z) :
  pixels (with_handle size im) x y
  = if in_bounds im x y && (cap_mask size x y || handle_mask size x y)
    then white else pixels im x y.
Proof.
  unfold with_handle. cbn [paint pixels].
  change (in_bounds (paint (handle_mask size) white im) x y)
    with (in_bounds im x y).
  destruct (in_bounds im x y), (cap_mask size x y), (handle_mask size x y);
    reflexivity.
Qed.

(** C2, as the code has it.  The handle starts at the point at distance
    [glass_radius] from the glass centre in the direction of 45 degrees (the
    middle of the ring band, not its outer edge), runs for [handle_length]
    along that same direction, is drawn with width [int(handle_width)], and
    ends in a filled white circle of radius [handle_width / 2] about its far
    end. *)
Theorem handle_geometry (size : Z) (draw : ref) (h : heap) (im : Image) :
  h !! draw = Some im ->
  let a := math_radians 45 in
  let start :=
    point_toward (center_x size) (center_y size) (glass_radius size)
                 (math_cos a) (math_sin a) in
  let stop :=
    point_toward (fst start) (snd start) (handle_length size)
                 (math_cos a) (math_sin a) in
  let r := (handle_width size / 2)%float in
  let segment :=
    line_mask (int_of_float (fst start)) (int_of_float (snd start))
              (int_of_float (fst stop)) (int_of_float (snd stop))
              (int_of_float (handle_width size)) in
  let cap :=
    ellipse_mask (int_of_float (fst stop - r)) (int_of_float (snd stop - r))
                 (int_of_float (fst stop + r)) (int_of_float (snd stop + r)) in
  exists im',
    draw_handle draw size h = Some (tt, <[draw := im']> h) /\
    forall x y,
      pixels im' x y
      = if in_bounds im x y && (cap x y || segment x y)
        then (255, 255, 255, 255)
        else pixels im x y.
Proof.
  intros Hd a start stop r segment cap.
  exists (with_handle size im). split; [now apply draw_handle_run|].
  intros x y. now rewrite with_handle_pixels.
Qed.

End Handle.

Lemma handle_geometry_witness :
  let size := 1024 in
  let a := math_radians 45 in
  let start :=
    point_toward (center_x size) (center_y size) (glass_radius size)
                 (reference_cos a) (reference_sin a) in
  let stop :=
    point_toward (fst start) (snd start) (handle_length size)
                 (reference_cos a) (reference_sin a) in
  let r := (handle_width size / 2)%float in
  let segment :=
    reference_line_mask
              (int_of_float (fst start)) (int_of_float (snd start))
              (int_of_float (fst stop)) (int_of_float (snd stop))
              (int_of_float (handle_width size)) in
  let cap :=
    reference_ellipse_mask
                 (int_of_float (fst stop - r)) (int_of_float (snd stop - r))
                 (int_of_float (fst stop + r)) (int_of_float (snd stop + r)) in
  exists im',
    draw_handle (B := reference_backend) 0%nat size [blank size]
    = Some (tt, <[0%nat := im']> [blank size]) /\
    forall x y,
      pixels im' x y
      = if in_bounds (blank size) x y && (cap x y || segment x y)
        then (255, 255, 255, 255)
        else pixels (blank size) x y.
Proof.
  exact (handle_geometry (B := reference_backend) 1024 0%nat [blank 1024]
           (blank 1024) eq_refl).
Defined.

(** C2 as stated fails at size 1024: the handle starts in pixel (603, 603),
    at distance [glass_radius] from the centre, while the point of the
    ring's outer circle at 45 degrees lies in pixel (623, 623). *)
Lemma handle_start_not_on_outer_circle :
  let size := 1024 in
  let outer_radius := (glass_radius size + ring_width size / 2)%float in
  let on_outer :=
    point_toward (center_x size) (center_y size) outer_radius cos45 sin45 in
  (int_of_float (handle_start_x (B := reference_backend) size),
   int_of_float (handle_start_y (B := reference_backend) size)) = (603, 603)
  /\ (int_of_float (fst on_outer), int_of_float (snd on_outer)) = (623, 623)
  /\ handle_box size cos45 sin45 = (603, 603, 806, 806).
Proof. vm_compute. repeat split; reflexivity. Qed.

(** ** The two layers and the composite (lines 82-97) *)

Lemma composite_transparent (dst : rgba) (r g b : Z) :
  composite_pixel dst (r, g, b, 0) = dst.
Proof. now destruct dst as [[[dr dg] db] da]. Qed.

Lemma shine_blends_checked : all_from 256 0 shine_blend_ok = true.
Proof. vm_compute. reflexivity. Qed.

Lemma composite_shine (r g b : Z) :
  composite_pixel (r, g, b, 255) shine_color
  = (shine_blend r, shine_blend g, shine_blend b, 255).
Proof. reflexivity. Qed.

Lemma shine_blend_over (c : Z) :
  is_byte c = true -> shine_blend c = over_channel 255 60 c.
Proof.
  unfold is_byte. zbool. intros Hc.
  apply Z.eqb_eq. change (shine_blend_ok c = true).
  apply (all_from_spec _ _ _ _ shine_blends_checked). lia.
Qed.

(** PIL's integer blend of the highlight colour over an opaque pixel is
    alpha-over, rounded to nearest. *)
Lemma composite_shine_over (r g b : Z) :
  is_byte r = true -> is_byte g = true -> is_byte b = true ->
  composite_pixel (r, g, b, 255) shine_color
  = over_opaque (r, g, b, 255) shine_color.
Proof.
  intros Hr Hg Hb. rewrite composite_shine.
  now rewrite !shine_blend_over by assumption.
Qed.

Section Layers.
Context {B : Backend}.

Lemma shine_layer_pixels (size x y : Z) :
  pixels (shine_layer size) x y
  = if in_bounds (blank size) x y && shine_mask size x y
    then shine_color else (0, 0, 0, 0).
Proof. reflexivity. Qed.

Lemma draw_layers_run (size : Z) (h : heap) :
  0 <= size ->
  draw_layers size h
  = Some ((length h, S (length h)), h ++ [canvas size; shine_layer size]).
Proof.
  intros Hs. unfold draw_layers, ImageDraw_Draw.
  rewrite (bind_run _ _ _ _ _ (Image_new_run size _ h Hs)).
  rewrite (bind_run _ _ _ _ _ eq_refl).
  rewrite (bind_run _ _ _ _ _
             (draw_gradient_run (length h) size _ _ (alloc_lookup h _))).
  rewrite alloc_update.
  rewrite (bind_run _ _ _ _ _
             (draw_ring_run (length h) size _ _ (alloc_lookup h _))).
  rewrite alloc_update.
  rewrite (bind_run _ _ _ _ _
             (draw_handle_run (length h) size _ _ (alloc_lookup h _))).
  rewrite alloc_update.
  change (with_handle size _) with (canvas size).
  rewrite (bind_run _ _ _ _ _ (make_shine_run size _ Hs)).
  unfold mret, M_ret. rewrite length_app. cbn [length].
  rewrite <- app_assoc. cbn [app]. do 3 f_equal. lia.
Qed.

Lemma layers_lookup (size : Z) (h : heap) :
  (h ++ [canvas size; shine_layer size]) !! length h = Some (canvas size) /\
  (h ++ [canvas size; shine_layer size]) !! S (length h)
  = Some (shine_layer size).
Proof.
  split.
  - now rewrite (list_lookup_middle h [shine_layer size] (canvas size)).
  - replace (h ++ [canvas size; shine_layer size])
      with ((h ++ [canvas size]) ++ [shine_layer size])
      by (now rewrite <- app_assoc).
    replace (S (length h)) with (length (h ++ [canvas size]))
      by (rewrite length_app; cbn [length]; lia).
    apply alloc_lookup.
Qed.

Lemma composite_run (size : Z) (h : heap) :
  let h1 := h ++ [canvas size; shine_layer size] in
  Image_alpha_composite (length h) (S (length h)) h1
  = Some (S (S (length h)), h1 ++ [icon size]).
Proof.
  intros h1. unfold Image_alpha_composite. subst h1.
  destruct (layers_lookup size h) as [-> ->].
  destruct (canvas_size size) as [-> ->].
  cbn [shine_layer paint blank width height].
  rewrite !Z.eqb_refl. cbn [andb]. unfold alloc.
  rewrite length_app. cbn [length]. do 3 f_equal. lia.
Qed.

Lemma result_lookup (size : Z) (h : heap) :
  ((h ++ [canvas size; shine_layer size]) ++ [icon size]) !! S (S (length h))
  = Some (icon size).
Proof.
  replace (S (S (length h)))
    with (length (h ++ [canvas size; shine_layer size]))
    by (rewrite length_app; cbn [length]; lia).
  apply alloc_lookup.
Qed.

Lemma create_app_icon_layers (size : Z) (h : heap) :
  0 <= size ->
  create_app_icon size h
  = Some (S (S (length h)),
          (h ++ [canvas size; shine_layer size]) ++ [icon size]).
Proof.
  intros Hs. rewrite create_app_icon_run by assumption.
  now rewrite <- app_assoc.
Qed.

(** C10.  The composite changes only what the highlight ellipse covers: in
    the heap [h1] the script has built just before
    [Image.alpha_composite], the main canvas is [main]; the composite leaves
    [h1] as it is, adds the result [res], and every pixel the ellipse does
    not cover is in [res], in all four channels, what it is in [main]. *)
Theorem composite_frame (size : Z) (h : heap) :
  0 <= size ->
  exists img shine_img h1 main out res,
    draw_layers size h = Some ((img, shine_img), h1) /\
    h1 !! img = Some main /\
    Image_alpha_composite img shine_img h1 = Some (out, h1 ++ [res]) /\
    create_app_icon size h = Some (out, h1 ++ [res]) /\
    (h1 ++ [res]) !! out = Some res /\
    forall x y,
      shine_mask size x y = false -> pixels res x y = pixels main x y.
Proof.
  intros Hs.
  exists (length h), (S (length h)), (h ++ [canvas size; shine_layer size]),
    (canvas size), (S (S (length h))), (icon size).
  split; [now apply draw_layers_run|].
  split; [apply layers_lookup|].
  split; [apply composite_run|].
  split; [now apply create_app_icon_layers|].
  split; [apply result_lookup|].
  intros x y Hm. unfold icon, composite. cbn [pixels].
  rewrite shine_layer_pixels, Hm, andb_false_r.
  apply composite_transparent.
Qed.

(** C7.  The highlight is drawn on a layer of its own, fully transparent
    but for one ellipse of radius [0.15 * glass_radius] whose centre is the
    glass centre moved up and left by [0.25 * glass_radius] on both axes,
    filled with white at alpha 60; the image returned is, pixel by pixel,
    that layer over the main canvas.  Over an opaque pixel the blend is
    alpha-over rounded to nearest, and a transparent pixel of the layer
    leaves the canvas pixel as it is. *)
Theorem highlight_layer (size : Z) (h : heap) :
  0 <= size ->
  let n := float_of_int size in
  let cx := (0.42 * n)%float in
  let cy := (0.42 * n)%float in
  let glass_radius := (0.24 * n)%float in
  let offset := (0.25 * glass_radius)%float in
  let radius := (0.15 * glass_radius)%float in
  let ellipse :=
    ellipse_mask (int_of_float (cx - offset - radius))
                 (int_of_float (cy - offset - radius))
                 (int_of_float (cx - offset + radius))
                 (int_of_float (cy - offset + radius)) in
  exists img shine_img h1 main shine out res,
    draw_layers size h = Some ((img, shine_img), h1) /\
    img <> shine_img /\
    h1 !! img = Some main /\ h1 !! shine_img = Some shine /\
    width shine = size /\ height shine = size /\
    (forall x y,
       pixels shine x y
       = if in_bounds shine x y && ellipse x y
         then (255, 255, 255, 60) else (0, 0, 0, 0)) /\
    create_app_icon size h = Some (out, h1 ++ [res]) /\
    (h1 ++ [res]) !! out = Some res /\
    (forall x y,
       pixels res x y = composite_pixel (pixels main x y) (pixels shine x y)) /\
    (forall dst, composite_pixel dst (0, 0, 0, 0) = dst) /\
    (forall r g b,
       is_byte r = true -> is_byte g = true -> is_byte b = true ->
       composite_pixel (r, g, b, 255) (255, 255, 255, 60)
       = over_opaque (r, g, b, 255) (255, 255, 255, 60)).
Proof.
  intros Hs n cx cy glass_radius offset radius ellipse.
  exists (length h), (S (length h)), (h ++ [canvas size; shine_layer size]),
    (canvas size), (shine_layer size), (S (S (length h))), (icon size).
  split; [now apply draw_layers_run|].
  split; [lia|].
  split; [apply layers_lookup|]. split; [apply layers_lookup|].
  split; [reflexivity|]. split; [reflexivity|].
  split.
  { intros x y. rewrite shine_layer_pixels.
    subst ellipse radius offset glass_radius cx cy.
    rewrite (float_mul_comm 0.42 n), (float_mul_comm 0.24 n),
      (float_mul_comm 0.25 _), (float_mul_comm 0.15 _).
    reflexivity. }
  split; [now apply create_app_icon_layers|].
  split; [apply result_lookup|].
  split; [reflexivity|].
  split; [intros dst; apply composite_transparent|].
  exact composite_shine_over.
Qed.

End Layers.

Lemma composite_frame_witness :
  exists img shine_img h1 main out res,
    draw_layers (B := reference_backend) 64 [] = Some ((img, shine_img), h1) /\
    h1 !! img = Some main /\
    Image_alpha_composite img shine_img h1 = Some (out, h1 ++ [res]) /\
    create_app_icon (B := reference_backend) 64 [] = Some (out, h1 ++ [res]) /\
    (h1 ++ [res]) !! out = Some res /\
    forall x y,
      shine_mask (B := reference_backend) 64 x y = false ->
      pixels res x y = pixels main x y.
Proof.
  apply (composite_frame (B := reference_backend) 64 []). lia.
Defined.

Lemma highlight_layer_witness :
  let size := 64 in
  let n := float_of_int size in
  let cx := (0.42 * n)%float in
  let cy := (0.42 * n)%float in
  let glass_radius := (0.24 * n)%float in
  let offset := (0.25 * glass_radius)%float in
  let radius := (0.15 * glass_radius)%float in
  let ellipse :=
    reference_ellipse_mask (int_of_float (cx - offset - radius))
                 (int_of_float (cy - offset - radius))
                 (int_of_float (cx - offset + radius))
                 (int_of_float (cy - offset + radius)) in
  exists img shine_img h1 main shine out res,
    draw_layers (B := reference_backend) size []
    = Some ((img, shine_img), h1) /\
    img <> shine_img /\
    h1 !! img = Some main /\ h1 !! shine_img = Some shine /\
    width shine = size /\ height shine = size /\
    (forall x y,
       pixels shine x y
       = if in_bounds shine x y && ellipse x y
         then (255, 255, 255, 60) else (0, 0, 0, 0)) /\
    create_app_icon (B := reference_backend) size []
    = Some (out, h1 ++ [res]) /\
    (h1 ++ [res]) !! out = Some res /\
    (forall x y,
       pixels res x y = composite_pixel (pixels main x y) (pixels shine x y)) /\
    (forall dst, composite_pixel dst (0, 0, 0, 0) = dst) /\
    (forall r g b,
       is_byte r = true -> is_byte g = true -> is_byte b = true ->
       composite_pixel (r, g, b, 255) (255, 255, 255, 60)
       = over_opaque (r, g, b, 255) (255, 255, 255, 60)).
Proof.
  apply (highlight_layer (B := reference_backend) 64 []). lia.
Defined.

(** ** The returned image: size, bytes, opacity *)

Lemma length_flat_map_const {A C : Type} (f : A -> list C) (k : nat)
    (l : list A) :
  (forall a, length (f a) = k) -> length (flat_map f l) = (k * length l)%nat.
Proof.
  intros Hf. induction l as [|a l IH]; cbn [flat_map length]; [lia|].
  rewrite length_app, IH, Hf. lia.
Qed.

Lemma length_tobytes (im : Image) :
  0 <= width im -> 0 <= height im ->
  length (tobytes im) = Z.to_nat (4 * width im * height im).
Proof.
  intros Hw Hh. unfold tobytes.
  rewrite (length_flat_map_const _ (4 * Z.to_nat (width im))).
  - rewrite length_range. lia.
  - intros y. rewrite (length_flat_map_const _ 4).
    + now rewrite length_range.
    + intros x. now destruct (pixels im x y) as [[[r g] b] a].
Qed.

Section Returned.
Context {B : Backend}.


Lemma render_negative (size : Z) (h : heap) :
  size < 0 -> render size h = None.
Proof.
  intros Hs. unfold render. now rewrite create_app_icon_negative.
Qed.

(** C9.  The bytes of the image returned depend on [size] alone: whatever
    images the heap holds when the call starts (those of earlier calls
    included), two calls with the same [size] return byte-identical
    images, or both raise. *)
Theorem render_deterministic (size : Z) (h1 h2 : heap) :
  option_map tobytes (render size h1) = option_map tobytes (render size h2).
Proof.
  destruct (Z.lt_ge_cases size 0) as [Hneg|Hpos].
  - now rewrite !render_negative.
  - now rewrite !render_icon.
Qed.

(** Two calls in a row: the second starts in the heap the first has left,
    returns a different object with the same bytes, and leaves the first
    image as it was. *)
Lemma render_twice (size : Z) (h : heap) :
  0 <= size ->
  exists a b h',
    (a ← create_app_icon size; b ← create_app_icon size; mret (a, b)) h
    = Some ((a, b), h') /\
    a <> b /\
    exists ia ib,
      h' !! a = Some ia /\ h' !! b = Some ib /\ tobytes ia = tobytes ib.
Proof.
  intros Hs.
  set (h1 := (h ++ [canvas size; shine_layer size]) ++ [icon size]).
  set (h2 := (h1 ++ [canvas size; shine_layer size]) ++ [icon size]).
  exists (S (S (length h))), (S (S (length h1))), h2.
  split.
  { rewrite (bind_run _ _ _ _ _ (create_app_icon_layers size h Hs)).
    fold h1.
    now rewrite (bind_run _ _ _ _ _ (create_app_icon_layers size h1 Hs)). }
  split.
  { subst h1. rewrite !length_app. cbn [length]. lia. }
  exists (icon size), (icon size). split; [|split; [|reflexivity]].
  - subst h2. rewrite <- app_assoc.
    rewrite lookup_app_l
      by (subst h1; rewrite !length_app; cbn [length]; lia).
    apply result_lookup.
  - apply result_lookup.
Qed.

End Returned.


(** ** Opacity *)

Lemma gradient_color_alpha (size y : Z) : alpha (gradient_color size y) = 255.
Proof. reflexivity. Qed.

Lemma composite_alpha (dst src : rgba) :
  alpha dst = 255 -> src = shine_color \/ src = (0, 0, 0, 0) ->
  alpha (composite_pixel dst src) = 255.
Proof.
  destruct dst as [[[r g] b] a]. cbn [alpha]. intros -> [-> | ->].
  - reflexivity.
  - reflexivity.
Qed.

Section Opacity.
Context {B : Backend} {L : BackendLaws B}.

Lemma canvas_alpha (size x y : Z) :
  0 <= x < size -> 0 <= y < size ->
  alpha (pixels (canvas size) x y) = 255.
Proof.
  intros Hx Hy. unfold canvas.
  rewrite with_handle_pixels, with_ring_pixels.
  destruct (_ && (cap_mask size x y || handle_mask size x y));
    [reflexivity|].
  destruct (_ && inner_mask size x y); [reflexivity|].
  destruct (_ && outer_mask size x y); [reflexivity|].
  unfold background. rewrite with_gradient_pixel by (reflexivity || lia).
  apply gradient_color_alpha.
Qed.

Lemma icon_alpha (size x y : Z) :
  0 <= x < size -> 0 <= y < size ->
  alpha (pixels (icon size) x y) = 255.
Proof.
  intros Hx Hy. unfold icon, composite. cbn [pixels].
  apply composite_alpha; [now apply canvas_alpha|].
  rewrite shine_layer_pixels.
  destruct (_ && shine_mask size x y); [now left | now right].
Qed.

(** C3, as the code has it.  Every pixel of the returned image has alpha
    exactly 255, those under the highlight included: the highlight is
    blended over a canvas that is opaque everywhere, and alpha-over an
    opaque pixel is opaque. *)
Theorem icon_opaque (size : Z) (h : heap) :
  1 <= size ->
  exists img,
    render size h = Some img /\
    forall x y, 0 <= x < size -> 0 <= y < size ->
      exists c, getpixel img x y = Some c /\ alpha c = 255.
Proof.
  intros Hs. exists (icon size). split; [apply render_icon; lia|].
  intros x y Hx Hy. exists (pixels (icon size) x y).
  split; [|now apply icon_alpha].
  unfold getpixel. destruct (icon_size size) as [Hw Hh].
  replace (in_bounds (icon size) x y) with true; [reflexivity|].
  symmetry. unfold in_bounds. rewrite Hw, Hh. zbool. lia.
Qed.

End Opacity.

Lemma icon_opaque_witness :
  exists img,
    render (B := reference_backend) 16 [] = Some img /\
    forall x y, 0 <= x < 16 -> 0 <= y < 16 ->
      exists c, getpixel img x y = Some c /\ alpha c = 255.
Proof.
  apply (icon_opaque (L := reference_laws) 16 []). lia.
Defined.

(** C3 as stated fails at size 1024, pixel (368, 368): the highlight
    ellipse covers it and the blend changes its colour, and its alpha is
    255 all the same. *)
Lemma highlight_pixel_opaque_at_1024 :
  exists img,
    render (B := reference_backend) 1024 [] = Some img /\
    shine_mask (B := reference_backend) 1024 368 368 = true /\
    getpixel (canvas (B := reference_backend) 1024) 368 368
    = Some (215, 117, 85, 255) /\
    getpixel img 368 368 = Some (224, 149, 125, 255).
Proof.
  exists (icon (B := reference_backend) 1024).
  split; [apply render_icon; lia|].
  vm_compute. repeat split; reflexivity.
Qed.

(** ** The glass centre and the top of the ring *)

Lemma centers_checked :
  all_from (Z.to_nat (4096 - 38)) 39 center_shows_inner = true.
Proof. vm_cast_no_check (eq_refl true). Qed.

Lemma ring_top_checked : ring_top_shows_white 1024 = true.
Proof. vm_compute. reflexivity. Qed.

Section Glass.
Context {B : Backend} {L : BackendLaws B}.

Lemma ellipse_outside (x0 y0 x1 y1 x y : Z) :
  inside_box (x0, y0, x1, y1) x y = false ->
  ellipse_mask x0 y0 x1 y1 x y = false.
Proof.
  intros Hout. destruct (ellipse_mask x0 y0 x1 y1 x y) eqn:E; [|reflexivity].
  apply ellipse_bbox in E. apply inside_box_spec in E. congruence.
Qed.

Lemma ellipse_inside (x0 y0 x1 y1 x y : Z) :
  well_inside (x0, y0, x1, y1) x y = true ->
  ellipse_mask x0 y0 x1 y1 x y = true.
Proof.
  unfold well_inside. rewrite andb_true_iff, inside_box_spec, Z.leb_le.
  intros [[Hx Hy] Hin]. now apply ellipse_interior.
Qed.

Lemma line_outside (x0 y0 x1 y1 w x y : Z) :
  near_segment (x0, y0, x1, y1) w x y = false ->
  line_mask x0 y0 x1 y1 w x y = false.
Proof.
  unfold near_segment. intros Hout.
  destruct (line_mask x0 y0 x1 y1 w x y) eqn:E; [|reflexivity].
  apply line_bbox in E. apply inside_box_spec in E. congruence.
Qed.

Lemma handle_mask_box (size x y : Z) :
  handle_mask size x y
  = let '(x0, y0, x1, y1) := handle_box size cos45 sin45 in
    line_mask x0 y0 x1 y1 (int_of_float (handle_width size)) x y.
Proof.
  unfold handle_mask, handle_end_x, handle_end_y, handle_start_x,
    handle_start_y, angle.
  rewrite cos_45, sin_45. reflexivity.
Qed.

Lemma cap_mask_box (size x y : Z) :
  cap_mask size x y
  = let '(x0, y0, x1, y1) := cap_box size cos45 sin45 in
    ellipse_mask x0 y0 x1 y1 x y.
Proof.
  unfold cap_mask, handle_end_x, handle_end_y, handle_start_x,
    handle_start_y, angle.
  rewrite cos_45, sin_45. reflexivity.
Qed.

Lemma overlays_clear_spec (size x y : Z) :
  overlays_clear size x y = true ->
  handle_mask size x y = false /\ cap_mask size x y = false /\
  shine_mask size x y = false.
Proof.
  unfold overlays_clear. rewrite !andb_true_iff, !negb_true_iff.
  intros [[Hh Hc] Hs]. split; [|split].
  - rewrite handle_mask_box.
    destruct (handle_box size cos45 sin45) as [[[x0 y0] x1] y1].
    now apply line_outside.
  - rewrite cap_mask_box.
    destruct (cap_box size cos45 sin45) as [[[x0 y0] x1] y1].
    now apply ellipse_outside.
  - unfold shine_mask. now apply ellipse_outside.
Qed.

Lemma icon_pixel_clear (size x y : Z) :
  overlays_clear size x y = true ->
  pixels (icon size) x y = pixels (with_ring size (background size)) x y.
Proof.
  intros Hc. destruct (overlays_clear_spec size x y Hc) as (Hh & Hcap & Hs).
  unfold icon, composite. cbn [pixels].
  rewrite shine_layer_pixels, Hs, andb_false_r, composite_transparent.
  unfold canvas. rewrite with_handle_pixels, Hh, Hcap.
  now rewrite andb_false_r.
Qed.

Lemma on_canvas (size x y : Z) (im : Image) :
  width im = size -> height im = size ->
  inside_box (0, 0, size - 1, size - 1) x y = true ->
  in_bounds im x y = true.
Proof.
  intros Hw Hh. rewrite inside_box_spec. intros [Hx Hy].
  unfold in_bounds. rewrite Hw, Hh. zbool. lia.
Qed.

Lemma background_size (size : Z) :
  width (background size) = size /\ height (background size) = size.
Proof. apply (with_gradient_size size (blank size)). Qed.

Lemma center_pixel (size : Z) :
  center_shows_inner size = true ->
  getpixel (icon size) (int_of_float (center_x size))
           (int_of_float (center_y size))
  = Some inner_color.
Proof.
  unfold center_shows_inner, glass_center. rewrite !andb_true_iff.
  intros [[Hin Hw] Hc].
  destruct (background_size size) as [Hbw Hbh].
  destruct (icon_size size) as [Hiw Hih].
  unfold getpixel. rewrite (on_canvas size _ _ _ Hiw Hih Hin).
  rewrite icon_pixel_clear by assumption.
  rewrite with_ring_pixels, (on_canvas size _ _ _ Hbw Hbh Hin).
  unfold inner_mask. now rewrite (ellipse_inside _ _ _ _ _ _ Hw).
Qed.

Lemma ring_top_pixel (size : Z) :
  ring_top_shows_white size = true ->
  getpixel (icon size) (int_of_float (center_x size))
           (int_of_float (center_y size - glass_radius size))
  = Some white.
Proof.
  unfold ring_top_shows_white, ring_top.
  rewrite !andb_true_iff, negb_true_iff.
  intros [[[Hin Hw] Hout] Hc].
  destruct (background_size size) as [Hbw Hbh].
  destruct (icon_size size) as [Hiw Hih].
  unfold getpixel. rewrite (on_canvas size _ _ _ Hiw Hih Hin).
  rewrite icon_pixel_clear by assumption.
  rewrite with_ring_pixels, (on_canvas size _ _ _ Hbw Hbh Hin).
  unfold inner_mask, outer_mask.
  rewrite (ellipse_outside _ _ _ _ _ _ Hout).
  now rewrite (ellipse_inside _ _ _ _ _ _ Hw).
Qed.


(** At size 1 the handle is a line of width 0 whose last point is pixel
    (0, 0), the only pixel there is: it is white on the canvas, and white
    it stays under the cap and the highlight, whatever they cover. *)
Lemma single_pixel_white : getpixel (icon 1) 0 0 = Some white.
Proof.
  unfold getpixel. change (in_bounds (icon 1) 0 0) with true. cbv iota.
  f_equal. unfold icon, composite. cbn [pixels].
  assert (Hcv : pixels (canvas 1) 0 0 = white).
  { unfold canvas. rewrite with_handle_pixels.
    change (in_bounds (with_ring 1 (background 1)) 0 0) with true.
    assert (Hh : handle_mask 1 0 0 = true).
    { rewrite handle_mask_box.
      change (handle_box 1 cos45 sin45) with (0, 0, 0, 0) at 1.
      change (int_of_float (handle_width 1)) with 0.
      apply line_endpoint. lia. }
    now rewrite Hh, orb_true_r. }
  rewrite Hcv, shine_layer_pixels.
  destruct (_ && shine_mask 1 0 0); reflexivity.
Qed.

End Glass.



(** * Further properties of the script *)

(** ** Boxes *)

Lemma near_segment_reach (b : box) (w x y : Z) :
  near_segment b w x y = inside_box (segment_reach b w) x y.
Proof. now destruct b as [[[x0 y0] x1] y1]. Qed.

Lemma box_inside_spec (q b : box) (x y : Z) :
  box_inside q b = true -> inside_box q x y = true ->
  inside_box b x y = true.
Proof.
  destruct q as [[[qx0 qy0] qx1] qy1], b as [[[x0 y0] x1] y1].
  unfold box_inside. rewrite !inside_box_spec. zbool. lia.
Qed.

Lemma boxes_apart_spec (p q : box) (x y : Z) :
  boxes_apart p q = true -> inside_box p x y = true ->
  inside_box q x y = false.
Proof.
  destruct p as [[[px0 py0] px1] py1], q as [[[qx0 qy0] qx1] qy1].
  unfold boxes_apart. rewrite inside_box_spec. intros Ha Hp.
  destruct (inside_box (qx0, qy0, qx1, qy1) x y) eqn:Hq; [|reflexivity].
  apply inside_box_spec in Hq. zbool. lia.
Qed.

Lemma on_canvas_box (size x y : Z) :
  inside_box (canvas_box size) x y = true <-> 0 <= x < size /\ 0 <= y < size.
Proof. unfold canvas_box. rewrite inside_box_spec. lia. Qed.

Lemma square_le_mono (a b : Z) : 0 <= a <= b -> a ^ 2 <= b ^ 2.
Proof. intros H. apply Z.pow_le_mono_l. exact H. Qed.

Lemma worst_offset_bound (lo hi c0 c1 t : Z) :
  lo <= t <= hi -> Z.abs (2 * t - c0 - c1) <= worst_offset lo hi c0 c1.
Proof. unfold worst_offset. lia. Qed.

Lemma box_well_inside_spec (q b : box) (x y : Z) :
  box_well_inside q b = true -> inside_box q x y = true ->
  well_inside b x y = true.
Proof.
  intros Hw Hq. pose proof Hq as Hq'.
  destruct q as [[[qx0 qy0] qx1] qy1], b as [[[x0 y0] x1] y1].
  unfold box_well_inside in Hw. apply andb_true_iff in Hw as [Hin Hw].
  apply Z.leb_le in Hw. apply inside_box_spec in Hq' as [Hx Hy].
  unfold well_inside. apply andb_true_iff. split.
  - exact (box_inside_spec _ _ x y Hin Hq).
  - apply Z.leb_le. etransitivity; [|exact Hw].
    apply Z.add_le_mono; apply Z.mul_le_mono_nonneg_r;
      try apply square_nonneg; apply square_le_mono;
      (split; [lia|]); apply Z.add_le_mono_r;
      now apply worst_offset_bound.
Qed.

(** ** Where the shapes can be *)

Lemma geometry_summary_eq (size : Z) :
  geometry_summary size
  = (shapes_on_canvas size, highlight_in_glass size,
     handle_end_shows_white size).
Proof. reflexivity. Qed.

Lemma geometry_checked : all_from 4096 1 geometry_ok = true.
Proof. vm_cast_no_check (eq_refl true). Qed.

Lemma geometry_ok_spec (size : Z) :
  1 <= size <= 4096 ->
  shapes_on_canvas size = true /\
  (41 <= size -> highlight_in_glass size = true) /\
  (114 <= size -> handle_end_shows_white size = true).
Proof.
  intros Hs.
  assert (Hok : geometry_ok size = true)
    by (apply (all_from_spec _ _ _ _ geometry_checked); lia).
  unfold geometry_ok in Hok. rewrite geometry_summary_eq in Hok.
  rewrite !andb_true_iff, !orb_true_iff, !Z.ltb_lt in Hok.
  destruct Hok as [[Ha Hb] Hc].
  split; [exact Ha|]. split; intros Hlo.
  - destruct Hb as [Hb|Hb]; [lia|exact Hb].
  - destruct Hc as [Hc|Hc]; [lia|exact Hc].
Qed.

Lemma shapes_checked (size : Z) :
  1 <= size <= 4096 -> shapes_on_canvas size = true.
Proof. intros Hs. now apply geometry_ok_spec. Qed.

Lemma highlights_checked (size : Z) :
  41 <= size <= 4096 -> highlight_in_glass size = true.
Proof.
  intros Hs. destruct (geometry_ok_spec size) as (_ & H & _); [lia|].
  apply H. lia.
Qed.

Lemma handle_ends_checked (size : Z) :
  114 <= size <= 4096 -> handle_end_shows_white size = true.
Proof.
  intros Hs. destruct (geometry_ok_spec size) as (_ & _ & H); [lia|].
  apply H. lia.
Qed.

Lemma highlight_on_inner : composite_pixel inner_color shine_color
                           = (224, 149, 125, 255).
Proof. vm_compute. reflexivity. Qed.

Lemma highlight_on_white : composite_pixel white shine_color = white.
Proof. vm_compute. reflexivity. Qed.

Section Shapes.
Context {B : Backend} {L : BackendLaws B}.

Lemma ellipse_in_box (x0 y0 x1 y1 x y : Z) :
  ellipse_mask x0 y0 x1 y1 x y = true ->
  inside_box (x0, y0, x1, y1) x y = true.
Proof. intros E. apply inside_box_spec. now apply ellipse_bbox. Qed.

Lemma handle_in_reach (size x y : Z) :
  handle_mask size x y = true -> inside_box (handle_reach size) x y = true.
Proof.
  rewrite handle_mask_box. unfold handle_reach.
  rewrite <- near_segment_reach.
  destruct (handle_box size cos45 sin45) as [[[x0 y0] x1] y1].
  intros E. destruct (near_segment _ _ x y) eqn:N; [reflexivity|].
  now rewrite (line_outside _ _ _ _ _ _ _ N) in E.
Qed.

Lemma cap_in_box (size x y : Z) :
  cap_mask size x y = true ->
  inside_box (cap_box size cos45 sin45) x y = true.
Proof.
  rewrite cap_mask_box.
  destruct (cap_box size cos45 sin45) as [[[x0 y0] x1] y1].
  apply ellipse_in_box.
Qed.

(** The box of whichever shape covers a pixel. *)
Lemma covered_in_some_box (size x y : Z) :
  outer_mask size x y || inner_mask size x y || handle_mask size x y
    || cap_mask size x y || shine_mask size x y = true ->
  inside_box (outer_box size) x y = true \/
  inside_box (inner_box size) x y = true \/
  inside_box (handle_reach size) x y = true \/
  inside_box (cap_box size cos45 sin45) x y = true \/
  inside_box (shine_box size) x y = true.
Proof.
  rewrite !orb_true_iff. intros [[[[H|H]|H]|H]|H].
  - left. now apply ellipse_in_box.
  - right; left. now apply ellipse_in_box.
  - right; right; left. now apply handle_in_reach.
  - right; right; right; left. now apply cap_in_box.
  - right; right; right; right. now apply ellipse_in_box.
Qed.

(** X5.  For every size from 1 to 4096 no drawing call of the script reaches
    beyond the canvas: whatever pixel the ring's discs, the handle, its cap
    or the highlight cover lies on the canvas, so nothing is clipped away. *)
Theorem nothing_clipped (size x y : Z) :
  1 <= size <= 4096 ->
  outer_mask size x y || inner_mask size x y || handle_mask size x y
    || cap_mask size x y || shine_mask size x y = true ->
  0 <= x < size /\ 0 <= y < size.
Proof.
  intros Hs Hcov.
  assert (Hc : shapes_on_canvas size = true)
    by (apply shapes_checked; lia).
  unfold shapes_on_canvas in Hc. rewrite !andb_true_iff in Hc.
  destruct Hc as [[[[Ho Hi] Hh] Hc] Hsh].
  apply on_canvas_box.
  destruct (covered_in_some_box size x y Hcov) as [H|[H|[H|[H|H]]]];
    eauto using box_inside_spec.
Qed.

Lemma canvas_pixel_cases (size x y : Z) :
  0 <= x < size -> 0 <= y < size ->
  pixels (canvas size) x y
  = if cap_mask size x y || handle_mask size x y then white
    else if inner_mask size x y then inner_color
    else if outer_mask size x y then white
    else gradient_color size y.
Proof.
  intros Hx Hy. destruct (background_size size) as [Hw Hh].
  assert (Hb : in_bounds (background size) x y = true)
    by (unfold in_bounds; rewrite Hw, Hh; zbool; lia).
  unfold canvas. rewrite with_handle_pixels, with_ring_pixels.
  change (in_bounds (with_ring size (background size)) x y)
    with (in_bounds (background size) x y).
  rewrite Hb. cbn [andb]. unfold background.
  now rewrite with_gradient_pixel by (reflexivity || lia).
Qed.

Lemma icon_pixel_cases (size x y : Z) :
  0 <= x < size -> 0 <= y < size ->
  pixels (icon size) x y
  = if shine_mask size x y
    then composite_pixel (pixels (canvas size) x y) shine_color
    else pixels (canvas size) x y.
Proof.
  intros Hx Hy. unfold icon, composite. cbn [pixels].
  rewrite shine_layer_pixels.
  assert (Hb : in_bounds (blank size) x y = true)
    by (unfold in_bounds; cbn [blank width height]; zbool; lia).
  rewrite Hb. cbn [andb].
  destruct (shine_mask size x y); [reflexivity|].
  apply composite_transparent.
Qed.

Lemma icon_getpixel (size x y : Z) :
  0 <= x < size -> 0 <= y < size ->
  getpixel (icon size) x y = Some (pixels (icon size) x y).
Proof.
  intros Hx Hy. unfold getpixel. destruct (icon_size size) as [Hw Hh].
  replace (in_bounds (icon size) x y) with true; [reflexivity|].
  symmetry. unfold in_bounds. rewrite Hw, Hh. zbool. lia.
Qed.

(** X3.  Every pixel of the returned image has one of five colours: white, the
    inner colour, the gradient colour of its row, or, under the highlight,
    the blend (224, 149, 125) of the inner colour or the blend of its row's
    gradient colour. *)
Theorem icon_palette (size : Z) (h : heap) :
  1 <= size ->
  exists img,
    render size h = Some img /\
    forall x y, 0 <= x < size -> 0 <= y < size ->
      exists c,
        getpixel img x y = Some c /\
        (c = (255, 255, 255, 255) \/
         c = (215, 117, 85, 255) \/
         c = gradient_color size y \/
         c = (224, 149, 125, 255) \/
         c = composite_pixel (gradient_color size y) shine_color).
Proof.
  intros Hs. exists (icon size). split; [apply render_icon; lia|].
  intros x y Hx Hy. exists (pixels (icon size) x y).
  split; [now apply icon_getpixel|].
  rewrite icon_pixel_cases, canvas_pixel_cases by assumption.
  rewrite <- inner_color_value, <- highlight_on_inner.
  destruct (shine_mask size x y), (cap_mask size x y || handle_mask size x y),
    (inner_mask size x y), (outer_mask size x y);
    rewrite ?highlight_on_white; auto 6.
Qed.

(** X4.  Outside the boxes of the five shapes the gradient shows through: a
    pixel of the canvas that lies in none of them has, in the returned
    image, the gradient colour of its row. *)
Theorem gradient_shows_outside_boxes (size : Z) (h : heap) (x y : Z) :
  0 <= x < size -> 0 <= y < size ->
  inside_box (outer_box size) x y = false ->
  inside_box (inner_box size) x y = false ->
  inside_box (handle_reach size) x y = false ->
  inside_box (cap_box size cos45 sin45) x y = false ->
  inside_box (shine_box size) x y = false ->
  exists img,
    render size h = Some img /\
    getpixel img x y = Some (gradient_color size y).
Proof.
  intros Hx Hy Ho Hi Hh Hc Hsh. exists (icon size).
  split; [apply render_icon; lia|].
  rewrite icon_getpixel, icon_pixel_cases, canvas_pixel_cases by assumption.
  assert (Eo : outer_mask size x y = false) by now apply ellipse_outside.
  assert (Ei : inner_mask size x y = false) by now apply ellipse_outside.
  assert (Es : shine_mask size x y = false) by now apply ellipse_outside.
  assert (Eh : handle_mask size x y = false).
  { destruct (handle_mask size x y) eqn:E; [|reflexivity].
    apply handle_in_reach in E. congruence. }
  assert (Ec : cap_mask size x y = false).
  { destruct (cap_mask size x y) eqn:E; [|reflexivity].
    apply cap_in_box in E. congruence. }
  now rewrite Eo, Ei, Es, Eh, Ec.
Qed.


(** X7.  For every size from 114 to 4096 the pixel of the handle's far end is
    white in the returned image: the round cap covers it. *)
Theorem handle_end_white (size : Z) (h : heap) :
  114 <= size <= 4096 ->
  exists img,
    render size h = Some img /\
    getpixel img (int_of_float (handle_end_x size))
                 (int_of_float (handle_end_y size))
    = Some (255, 255, 255, 255).
Proof.
  intros Hs. exists (icon size). split; [apply render_icon; lia|].
  assert (Hc : handle_end_shows_white size = true)
    by (apply handle_ends_checked; lia).
  unfold handle_end_shows_white in Hc.
  assert (Hends : handle_box size cos45 sin45
                  = (int_of_float (handle_start_x size),
                     int_of_float (handle_start_y size),
                     int_of_float (handle_end_x size),
                     int_of_float (handle_end_y size))).
  { unfold handle_end_x, handle_end_y, handle_start_x, handle_start_y, angle.
    rewrite cos_45, sin_45. reflexivity. }
  rewrite Hends in Hc. rewrite !andb_true_iff, negb_true_iff in Hc.
  destruct Hc as [[Hon Hw] Hsh].
  apply on_canvas_box in Hon as [Hx Hy].
  rewrite icon_getpixel, icon_pixel_cases, canvas_pixel_cases by assumption.
  assert (Ec : cap_mask size (int_of_float (handle_end_x size))
                 (int_of_float (handle_end_y size)) = true).
  { rewrite cap_mask_box.
    destruct (cap_box size cos45 sin45) as [[[x0 y0] x1] y1].
    now apply ellipse_inside. }
  assert (Es : shine_mask size (int_of_float (handle_end_x size))
                 (int_of_float (handle_end_y size)) = false)
    by now apply ellipse_outside.
  now rewrite Ec, Es.
Qed.

End Shapes.

Lemma nothing_clipped_witness : 0 <= 430 < 1024 /\ 0 <= 184 < 1024.
Proof.
  apply (nothing_clipped (L := reference_laws) 1024 430 184); [lia|].
  vm_compute. reflexivity.
Defined.

Lemma icon_palette_witness :
  exists img,
    render (B := reference_backend) 16 [] = Some img /\
    forall x y, 0 <= x < 16 -> 0 <= y < 16 ->
      exists c,
        getpixel img x y = Some c /\
        (c = (255, 255, 255, 255) \/
         c = (215, 117, 85, 255) \/
         c = gradient_color 16 y \/
         c = (224, 149, 125, 255) \/
         c = composite_pixel (gradient_color 16 y) shine_color).
Proof.
  apply (icon_palette (L := reference_laws) 16 []). lia.
Defined.

Lemma gradient_shows_outside_boxes_witness :
  exists img,
    render (B := reference_backend) 1024 [] = Some img /\
    getpixel img 1023 0 = Some (gradient_color 1024 0).
Proof.
  apply (gradient_shows_outside_boxes (L := reference_laws) 1024 [] 1023 0);
    solve [lia | vm_compute; reflexivity].
Defined.


Lemma handle_end_white_witness :
  exists img,
    render (B := reference_backend) 1024 [] = Some img /\
    getpixel img
      (int_of_float (handle_end_x (B := reference_backend) 1024))
      (int_of_float (handle_end_y (B := reference_backend) 1024))
    = Some (255, 255, 255, 255).
Proof.
  apply (handle_end_white (L := reference_laws) 1024 []). lia.
Defined.

(** ** The heap: what a call allocates and what it leaves alone *)

Section HeapEffects.
Context {B : Backend}.

(** X1.  A call that returns has allocated exactly three images at the end of
    the heap (the canvas, the highlight layer and the result, which is the
    last and the one returned), and has left every image that was in the
    heap before as it was. *)
Theorem create_app_icon_frame (size : Z) (h : heap) (out : ref) (h' : heap) :
  create_app_icon size h = Some (out, h') ->
  length h' = (length h + 3)%nat /\
  out = (length h + 2)%nat /\
  (forall r im, h !! r = Some im -> h' !! r = Some im) /\
  exists main shine res,
    h' !! length h = Some main /\
    h' !! S (length h) = Some shine /\
    h' !! out = Some res /\
    width main = size /\ width shine = size /\ width res = size.
Proof.
  intros Hrun.
  destruct (Z.lt_ge_cases size 0) as [Hneg|Hpos].
  { now rewrite create_app_icon_negative in Hrun. }
  rewrite create_app_icon_layers in Hrun by assumption.
  injection Hrun as <- <-.
  split; [rewrite !length_app; cbn [length]; lia|].
  split; [lia|].
  split.
  { intros r im Hr. rewrite <- app_assoc. now apply lookup_app_l_Some. }
  exists (canvas size), (shine_layer size), (icon size).
  destruct (layers_lookup size h) as [Hm Hs].
  split; [now apply lookup_app_l_Some|].
  split; [now apply lookup_app_l_Some|].
  split; [apply result_lookup|].
  split; [apply canvas_size|].
  split; [reflexivity|apply icon_size].
Qed.


End HeapEffects.

Lemma create_app_icon_frame_witness :
  let h := [blank 7] in
  let h' := h ++ [canvas (B := reference_backend) 4;
                  shine_layer (B := reference_backend) 4;
                  icon (B := reference_backend) 4] in
  let out := S (S (length h)) in
  length h' = (length h + 3)%nat /\
  out = (length h + 2)%nat /\
  (forall r im, h !! r = Some im -> h' !! r = Some im) /\
  exists main shine res,
    h' !! length h = Some main /\
    h' !! S (length h) = Some shine /\
    h' !! out = Some res /\
    width main = 4 /\ width shine = 4 /\ width res = 4.
Proof.
  exact (create_app_icon_frame (B := reference_backend) 4 [blank 7] _ _
           (create_app_icon_run 4 [blank 7] ltac:(lia))).
Defined.

(** ** The highlight only brightens *)

Lemma shine_brightens_checked : all_from 256 0 shine_brightens = true.
Proof. vm_compute. reflexivity. Qed.

(** X8.  Blended over an opaque pixel whose channels are bytes, the highlight
    colour raises or keeps every channel, keeps it a byte, and keeps the
    pixel opaque. *)
Theorem highlight_brightens (r g b : Z) :
  is_byte r = true -> is_byte g = true -> is_byte b = true ->
  exists r' g' b',
    composite_pixel (r, g, b, 255) shine_color = (r', g', b', 255) /\
    r <= r' <= 255 /\ g <= g' <= 255 /\ b <= b' <= 255.
Proof.
  assert (H : forall c, is_byte c = true -> c <= shine_blend c <= 255).
  { unfold is_byte. intros c Hc. zbool.
    assert (Hb : shine_brightens c = true)
      by (apply (all_from_spec _ _ _ _ shine_brightens_checked); lia).
    unfold shine_brightens in Hb. zbool. lia. }
  intros Hr Hg Hb.
  exists (shine_blend r), (shine_blend g), (shine_blend b).
  split; [apply composite_shine|]. auto.
Qed.

Lemma highlight_brightens_witness :
  exists r' g' b',
    composite_pixel (196, 88, 54, 255) shine_color = (r', g', b', 255) /\
    196 <= r' <= 255 /\ 88 <= g' <= 255 /\ 54 <= b' <= 255.
Proof.
  apply (highlight_brightens 196 88 54); reflexivity.
Defined.

(** ** The gradient goes down *)

Lemma gradients_checked :
  all_from 128 1 gradient_descends && gradient_descends 1024 = true.
Proof. vm_cast_no_check (eq_refl true). Qed.

Lemma channels_le_trans (c d e : rgba) :
  channels_le c d = true -> channels_le d e = true -> channels_le c e = true.
Proof.
  destruct c as [[[cr cg] cb] ca], d as [[[dr dg] db] da],
    e as [[[er eg] eb] ea].
  unfold channels_le. zbool. lia.
Qed.

Lemma descends_from_spec (size : Z) (n : nat) :
  forall y prev, descends_from n size y prev = true ->
  forall k, 0 <= k < Z.of_nat n ->
    channels_le (196, 88, 54, 255) (gradient_color size (y + k)) = true /\
    channels_le (gradient_color size (y + k)) prev = true /\
    (0 < k ->
     channels_le (gradient_color size (y + k))
                 (gradient_color size (y + k - 1)) = true).
Proof.
  induction n as [|n IH]; intros y prev Hd k Hk; [lia|].
  cbn [descends_from] in Hd. rewrite !andb_true_iff in Hd.
  destruct Hd as [[Hlo Hhi] Hrest].
  destruct (Z.eq_dec k 0) as [->|Hne].
  - rewrite Z.add_0_r. split; [exact Hlo|]. split; [exact Hhi|lia].
  - destruct (IH (y + 1) _ Hrest (k - 1)) as (Hlo' & Hhi' & Hstep); [lia|].
    replace (y + 1 + (k - 1)) with (y + k) in * by lia.
    split; [exact Hlo'|].
    split; [exact (channels_le_trans _ _ _ Hhi' Hhi)|].
    intros _. destruct (Z.eq_dec k 1) as [->|Hk1].
    + now replace (y + 1 - 1) with y by lia.
    + apply Hstep. lia.
Qed.

(** X9.  For every size up to 128, and for 1024, every row of the gradient lies
    between the bottom and the top colour channel by channel, and from one
    row to the next no channel rises. *)
Theorem gradient_monotone (size y : Z) :
  1 <= size <= 128 \/ size = 1024 ->
  0 <= y < size ->
  channels_le (196, 88, 54, 255) (gradient_color size y) = true /\
  channels_le (gradient_color size y) (217, 119, 87, 255) = true /\
  (y + 1 < size ->
   channels_le (gradient_color size (y + 1)) (gradient_color size y) = true).
Proof.
  intros Hs Hy.
  pose proof gradients_checked as Hc. apply andb_true_iff in Hc as [Hall H1024].
  assert (Hd : gradient_descends size = true).
  { destruct Hs as [Hs | ->]; [|exact H1024].
    apply (all_from_spec _ _ _ _ Hall). lia. }
  unfold gradient_descends in Hd.
  pose proof (descends_from_spec size _ 0 _ Hd) as Hrows.
  destruct (Hrows y) as (Hlo & Hhi & _); [lia|].
  rewrite Z.add_0_l in Hlo, Hhi.
  split; [exact Hlo|]. split; [exact Hhi|].
  intros Hlt. destruct (Hrows (y + 1)) as (_ & _ & Hstep); [lia|].
  rewrite Z.add_0_l in Hstep.
  replace (y + 1 - 1) with y in Hstep by lia.
  apply Hstep. lia.
Qed.

Lemma gradient_monotone_witness :
  channels_le (196, 88, 54, 255) (gradient_color 1024 511) = true /\
  channels_le (gradient_color 1024 511) (217, 119, 87, 255) = true /\
  (511 + 1 < 1024 ->
   channels_le (gradient_color 1024 (511 + 1)) (gradient_color 1024 511)
   = true).
Proof.
  apply (gradient_monotone 1024 511); [right; reflexivity | lia].
Defined.

(** ** The entry point *)

Section Main.
Context {B : Backend} {L : BackendLaws B} {S : System}.

Lemma on_heap_create (w : world) :
  on_heap (create_app_icon 1024) w
  = Some (Datatypes.S (Datatypes.S (length (objects w))),
          {| objects := (objects w ++ [canvas 1024; shine_layer 1024])
                        ++ [icon 1024];
             files := files w; stdout := stdout w |}).
Proof.
  unfold on_heap. now rewrite create_app_icon_layers by lia.
Qed.


End Main.

